(** * Sim Agents submission specs: a shallow embedding of
      [waymo_open_dataset/utils/sim_agents/submission_specs.py]

    The Python module is embedded function by function.  Protocol-buffer
    messages become records, repeated fields become lists, Python [int]s
    become [Z], Python [float]s become binary64 floats, the Python [set]
    of object ids becomes a [gset Z], and a raised exception becomes the
    [Err] branch of a small error monad. *)

From Stdlib Require Import ZArith List Sorted.
From Stdlib Require Import PrimFloat.
From stdpp Require Import base decidable list sorting gmap strings.

Local Open Scope string_scope.
Local Open Scope list_scope.
Local Open Scope Z_scope.

(** ** Exceptions *)

(** Which repeated field a failing subscript was applied to:
    [track.states[...]] (line 69) or [scenario.tracks[...]]
    (lines 156 and 159). *)
Inductive container : Set :=
| TrackStates
| ScenarioTracks.

(** The messages of the [ValueError]s the module raises, with the values
    interpolated into each f-string kept as a payload.  The constructor
    names are the error kinds of the specification. *)
Inductive message : Type :=
| InvalidArgument (repr : string)
    (* f'Unknown {challenge_type=}' *)
| ShapeMismatch (field_name : string) (actual expected : Z)
    (* f'Invalid {field_name} tensor length (actual: .., expected: ..)' *)
| UnknownAgent (object_id : Z)
    (* f'Object {object_id} is not a sim agent.' *)
| MissingAgents (missing_agents : gset Z) (simulated_ids : list Z)
    (* f'Sim agents {missing_agents} are missing from the simulation id
       {simulated_ids}.' *)
| MissingField
    (* 'Missing `scenario_id` field.' *)
| CountMismatch (actual expected : Z).
    (* 'Incorrect number of parallel simulations. (Actual: .., Expected: ..)' *)

Inductive exn : Type :=
| ValueError (m : message)
| IndexError (c : container)
| AttributeError (name : string).

(** ** The error monad *)

Inductive result (A : Type) : Type :=
| Ok (a : A)
| Err (e : exn).

Arguments Ok {A} a.
Arguments Err {A} e.

(** Sequencing: the first exception raised ends the computation.  With
    these instances [x ← r; k] and [r;; k] read as Python statements. *)
#[global] Instance result_ret : MRet result := fun A a => Ok a.

#[global] Instance result_bind : MBind result := fun A B k r =>
  match r with
  | Ok a => k a
  | Err e => Err e
  end.

Definition raise {A : Type} (e : exn) : result A := Err e.

(** ** Python sequences *)

(** [len(l)] as a Python int. *)
Definition len {A : Type} (l : list A) : Z := Z.of_nat (length l).

(** [l[i]] on a repeated field: a negative subscript counts from the end,
    and a subscript outside [-len(l), len(l)) raises [IndexError]. *)
Definition getitem {A : Type} (c : container) (l : list A) (i : Z) : result A :=
  let j := if i <? 0 then len l + i else i in
  if j <? 0 then raise (IndexError c)
  else match l !! Z.to_nat j with
       | Some a => Ok a
       | None => raise (IndexError c)
       end.

(** [sorted(s)] for a set of ints. *)
Definition sorted (s : gset Z) : list Z := merge_sort Z.le (elements s).

(** ** Protocol buffers *)

Module scenario_pb2.

Record ObjectState : Type := { valid : bool }.

Record Track : Type := {
  id : Z;
  states : list ObjectState
}.

Record RequiredPrediction : Type := { track_index : Z }.

Record Scenario : Type := {
  tracks : list Track;
  sdc_track_index : Z;
  tracks_to_predict : list RequiredPrediction
}.

End scenario_pb2.

Module sim_agents_submission_pb2.

Record SimulatedTrajectory : Type := {
  center_x : list float;
  center_y : list float;
  center_z : list float;
  heading : list float;
  object_id : Z
}.

Record JointScene : Type := {
  simulated_trajectories : list SimulatedTrajectory
}.

(** [scenario_id] is an optional field: [HasField('scenario_id')] is
    [true] exactly when it is [Some]. *)
Record ScenarioRollouts : Type := {
  scenario_id : option string;
  joint_scenes : list JointScene
}.

Definition HasField_scenario_id (r : ScenarioRollouts) : bool :=
  match scenario_id r with
  | Some _ => true
  | None => false
  end.

(** [getattr(trajectory, field_name)] for the repeated float fields. *)
Definition getattr (t : SimulatedTrajectory) (field_name : string)
  : result (list float) :=
  if String.eqb field_name "center_x" then Ok (center_x t)
  else if String.eqb field_name "center_y" then Ok (center_y t)
  else if String.eqb field_name "center_z" then Ok (center_z t)
  else if String.eqb field_name "heading" then Ok (heading t)
  else raise (AttributeError field_name).

End sim_agents_submission_pb2.

(** ** [ChallengeType] and [SubmissionConfig] *)

Inductive ChallengeType : Set :=
| SIM_AGENTS
| SCENARIO_GEN.

(** What a caller can pass as [challenge_type]: a member of the enum, or
    any other Python value (given by its repr). *)
Inductive challenge_arg : Type :=
| Tag (c : ChallengeType)
| NotATag (repr : string).

Record SubmissionConfig : Type := {
  current_time_index : Z;
  n_simulation_steps : Z;
  n_rollouts : Z;
  step_duration_seconds : float
}.

Definition is_valid_sim_agent (self : SubmissionConfig)
    (track : scenario_pb2.Track) : result bool :=
  state ← getitem TrackStates (scenario_pb2.states track)
            (current_time_index self);
  mret (scenario_pb2.valid state).

#[warnings="-inexact-float"]
Definition _SIM_AGENTS_SUBMISSION_CONFIG : SubmissionConfig := {|
  current_time_index := 10;
  n_simulation_steps := 80;
  n_rollouts := 32;
  step_duration_seconds := 0.1
|}.

#[warnings="-inexact-float"]
Definition _SCENARIO_GEN_SUBMISSION_CONFIG : SubmissionConfig := {|
  current_time_index := 10;
  n_simulation_steps := 91;
  n_rollouts := 32;
  step_duration_seconds := 0.1
|}.

Definition get_submission_config (challenge_type : challenge_arg)
    : result SubmissionConfig :=
  match challenge_type with
  | Tag SIM_AGENTS => Ok _SIM_AGENTS_SUBMISSION_CONFIG
  | Tag SCENARIO_GEN => Ok _SCENARIO_GEN_SUBMISSION_CONFIG
  | NotATag repr => raise (ValueError (InvalidArgument repr))
  end.

(** ** Which agents are simulated, and which are evaluated *)

Import scenario_pb2 sim_agents_submission_pb2.

(** The [for track in scenario.tracks] loop of [get_sim_agent_ids];
    [object_ids] is the list built so far. *)
Fixpoint get_sim_agent_ids_loop (config : SubmissionConfig)
    (remaining : list Track) (object_ids : list Z) : result (list Z) :=
  match remaining with
  | [] => mret object_ids
  | track :: remaining' =>
      needed ← is_valid_sim_agent config track;
      if (needed : bool)
      then get_sim_agent_ids_loop config remaining' (object_ids ++ [id track])
      else get_sim_agent_ids_loop config remaining' object_ids
  end.

Definition get_sim_agent_ids (scenario : Scenario)
    (challenge_type : challenge_arg) : result (list Z) :=
  config ← get_submission_config challenge_type;
  get_sim_agent_ids_loop config (tracks scenario) [].

(** The [for required_prediction in scenario.tracks_to_predict] loop of
    [get_evaluation_sim_agent_ids]; [object_ids] is the set built so far. *)
Fixpoint get_evaluation_sim_agent_ids_loop (scenario : Scenario)
    (remaining : list RequiredPrediction) (object_ids : gset Z)
    : result (gset Z) :=
  match remaining with
  | [] => mret object_ids
  | required_prediction :: remaining' =>
      track ← getitem ScenarioTracks (tracks scenario)
                (track_index required_prediction);
      get_evaluation_sim_agent_ids_loop scenario remaining'
        (object_ids ∪ {[ id track ]})
  end.

Definition get_evaluation_sim_agent_ids (scenario : Scenario)
    (challenge_type : challenge_arg) : result (list Z) :=
  match challenge_type with
  | Tag SIM_AGENTS =>
      sdc ← getitem ScenarioTracks (tracks scenario)
              (sdc_track_index scenario);
      object_ids ← get_evaluation_sim_agent_ids_loop scenario
                     (tracks_to_predict scenario) {[ id sdc ]};
      mret (sorted object_ids)
  | Tag SCENARIO_GEN => get_sim_agent_ids scenario challenge_type
  | NotATag repr => raise (ValueError (InvalidArgument repr))
  end.

(** ** Validation *)

Definition _raise_if_wrong_length (trajectory : SimulatedTrajectory)
    (field_name : string) (expected_length : Z) : result unit :=
  field ← getattr trajectory field_name;
  if negb (len field =? expected_length)
  then raise (ValueError
                (ShapeMismatch field_name (len field) expected_length))
  else mret ().

(** The [for simulated_trajectory in joint_scene.simulated_trajectories]
    loop of [validate_joint_scene]; [simulated_ids] is the list built so
    far. *)
Fixpoint validate_joint_scene_loop (config : SubmissionConfig)
    (sim_agent_ids : list Z) (remaining : list SimulatedTrajectory)
    (simulated_ids : list Z) : result (list Z) :=
  match remaining with
  | [] => mret simulated_ids
  | simulated_trajectory :: remaining' =>
      _raise_if_wrong_length simulated_trajectory "center_x"
        (n_simulation_steps config);;
      _raise_if_wrong_length simulated_trajectory "center_y"
        (n_simulation_steps config);;
      _raise_if_wrong_length simulated_trajectory "center_z"
        (n_simulation_steps config);;
      _raise_if_wrong_length simulated_trajectory "heading"
        (n_simulation_steps config);;
      if bool_decide (object_id simulated_trajectory ∉ sim_agent_ids)
      then raise (ValueError (UnknownAgent (object_id simulated_trajectory)))
      else validate_joint_scene_loop config sim_agent_ids remaining'
             (simulated_ids ++ [object_id simulated_trajectory])
  end.

Definition validate_joint_scene (joint_scene : JointScene)
    (original_scenario : Scenario) (challenge_type : challenge_arg)
    : result unit :=
  config ← get_submission_config challenge_type;
  sim_agent_ids ← get_sim_agent_ids original_scenario challenge_type;
  simulated_ids ← validate_joint_scene_loop config sim_agent_ids
                    (simulated_trajectories joint_scene) [];
  let missing_agents : gset Z :=
    list_to_set sim_agent_ids ∖ list_to_set simulated_ids in
  if bool_decide (missing_agents ≠ ∅)
  then raise (ValueError (MissingAgents missing_agents simulated_ids))
  else mret ().

(** The [for joint_scene in scenario_rollouts.joint_scenes] loop of
    [validate_scenario_rollouts]. *)
Fixpoint validate_scenario_rollouts_loop (remaining : list JointScene)
    (original_scenario : Scenario) (challenge_type : challenge_arg)
    : result unit :=
  match remaining with
  | [] => mret ()
  | joint_scene :: remaining' =>
      validate_joint_scene joint_scene original_scenario challenge_type;;
      validate_scenario_rollouts_loop remaining' original_scenario
        challenge_type
  end.

Definition validate_scenario_rollouts (scenario_rollouts : ScenarioRollouts)
    (original_scenario : Scenario) (challenge_type : challenge_arg)
    : result unit :=
  config ← get_submission_config challenge_type;
  if negb (HasField_scenario_id scenario_rollouts)
  then raise (ValueError MissingField)
  else if negb (len (joint_scenes scenario_rollouts) =? n_rollouts config)
  then raise (ValueError
                (CountMismatch (len (joint_scenes scenario_rollouts))
                   (n_rollouts config)))
  else validate_scenario_rollouts_loop (joint_scenes scenario_rollouts)
         original_scenario challenge_type.

(** [challenge_type] defaults to [ChallengeType.SIM_AGENTS]. *)
Definition validate_scenario_rollouts_default
    (scenario_rollouts : ScenarioRollouts) (original_scenario : Scenario)
    : result unit :=
  validate_scenario_rollouts scenario_rollouts original_scenario
    (Tag SIM_AGENTS).

(** ** Properties the operations are checked against *)

(** The track has a state at step [i]. *)
Definition has_step (i : Z) (track : Track) : Prop :=
  0 <= i < len (states track).

(** The track's state at step [i] is marked valid. *)
Definition valid_at (i : Z) (track : Track) : bool :=
  match states track !! Z.to_nat i with
  | Some state => valid state
  | None => false
  end.

(** All four numeric fields of a trajectory have length [n]. *)
Definition well_shaped (n : Z) (t : SimulatedTrajectory) : Prop :=
  len (center_x t) = n /\ len (center_y t) = n /\
  len (center_z t) = n /\ len (heading t) = n.

(** A trajectory passes every per-trajectory check. *)
Definition conforms (n : Z) (required_ids : list Z)
    (t : SimulatedTrajectory) : Prop :=
  well_shaped n t /\ object_id t ∈ required_ids.

(** The first check a trajectory fails, in the order the checks are made:
    the four lengths, then membership in the required ids. *)
Inductive violation (n : Z) (required_ids : list Z)
    (t : SimulatedTrajectory) : message -> Prop :=
| bad_center_x :
    len (center_x t) ≠ n ->
    violation n required_ids t (ShapeMismatch "center_x" (len (center_x t)) n)
| bad_center_y :
    len (center_x t) = n -> len (center_y t) ≠ n ->
    violation n required_ids t (ShapeMismatch "center_y" (len (center_y t)) n)
| bad_center_z :
    len (center_x t) = n -> len (center_y t) = n -> len (center_z t) ≠ n ->
    violation n required_ids t (ShapeMismatch "center_z" (len (center_z t)) n)
| bad_heading :
    len (center_x t) = n -> len (center_y t) = n -> len (center_z t) = n ->
    len (heading t) ≠ n ->
    violation n required_ids t (ShapeMismatch "heading" (len (heading t)) n)
| bad_object_id :
    well_shaped n t -> object_id t ∉ required_ids ->
    violation n required_ids t (UnknownAgent (object_id t)).

(** Every required id is the [object_id] of some trajectory. *)
Definition covered (required_ids : list Z)
    (trajectories : list SimulatedTrajectory) : Prop :=
  ∀ i, i ∈ required_ids -> ∃ t, t ∈ trajectories /\ object_id t = i.

(** The errors [validate_joint_scene] raises on its own account. *)
Definition joint_scene_error (m : message) : Prop :=
  match m with
  | ShapeMismatch _ _ _ | UnknownAgent _ | MissingAgents _ _ => True
  | InvalidArgument _ | MissingField | CountMismatch _ _ => False
  end.

(** [predicted] are the tracks the [tracks_to_predict] entries refer to. *)
Definition refer_to (scenario : Scenario)
    (entries : list RequiredPrediction) (predicted : list Track) : Prop :=
  Forall2 (λ entry track,
             getitem ScenarioTracks (tracks scenario) (track_index entry)
             = Ok track)
    entries predicted.

(** ** Sample inputs *)

Definition state_of (b : bool) : ObjectState := {| valid := b |}.

(** A track with the 11 history states, the current one (step 10) marked
    [b]. *)
Definition track_of (i : Z) (b : bool) : Track :=
  {| id := i; states := replicate 10 (state_of true) ++ [state_of b] |}.

(** A track that stops one state before the current step. *)
Definition short_track : Track :=
  {| id := 9; states := replicate 10 (state_of true) |}.

(** Three agents, the third one not valid at the current step; the first
    is the autonomous vehicle, the second is to be predicted. *)
Definition sample_scenario : Scenario :=
  {| tracks := [track_of 7 true; track_of 3 true; track_of 5 false];
     sdc_track_index := 0;
     tracks_to_predict := [ {| track_index := 1 |} ] |}.

(** As [sample_scenario], but the entry to be predicted refers to the
    third track, which is not valid at the current step. *)
Definition stale_prediction_scenario : Scenario :=
  {| tracks := [track_of 7 true; track_of 3 true; track_of 5 false];
     sdc_track_index := 0;
     tracks_to_predict := [ {| track_index := 2 |} ] |}.

(** A trajectory for agent [i] whose four fields have [n] steps. *)
Definition trajectory_of (i : Z) (n : nat) : SimulatedTrajectory :=
  {| center_x := replicate n 0%float;
     center_y := replicate n 0%float;
     center_z := replicate n 0%float;
     heading := replicate n 0%float;
     object_id := i |}.

(** Both simulated agents, each once. *)
Definition sample_scene : JointScene :=
  {| simulated_trajectories := [trajectory_of 7 80; trajectory_of 3 80] |}.

(** Both simulated agents, the first one twice. *)
Definition duplicate_scene : JointScene :=
  {| simulated_trajectories :=
       [trajectory_of 7 80; trajectory_of 3 80; trajectory_of 7 80] |}.

(** The second trajectory is one step short. *)
Definition short_scene : JointScene :=
  {| simulated_trajectories := [trajectory_of 7 80; trajectory_of 3 79] |}.

(** The second simulated agent is left out. *)
Definition partial_scene : JointScene :=
  {| simulated_trajectories := [trajectory_of 7 80] |}.

Definition sample_rollouts : ScenarioRollouts :=
  {| scenario_id := Some "4f2a";
     joint_scenes := replicate 32 sample_scene |}.

(** No [scenario_id]. *)
Definition unnamed_rollouts : ScenarioRollouts :=
  {| scenario_id := None;
     joint_scenes := replicate 32 sample_scene |}.

(** One joint scene too few. *)
Definition few_rollouts : ScenarioRollouts :=
  {| scenario_id := Some "4f2a";
     joint_scenes := replicate 31 sample_scene |}.

(** The second of the 32 joint scenes has a short trajectory, a later one
    leaves an agent out. *)
Definition flawed_rollouts : ScenarioRollouts :=
  {| scenario_id := Some "4f2a";
     joint_scenes :=
       [sample_scene; short_scene; partial_scene]
       ++ replicate 29 sample_scene |}.

(** A scenario one of whose tracks stops before the current step. *)
Definition truncated_scenario : Scenario :=
  {| tracks := [track_of 7 true; short_track];
     sdc_track_index := 0;
     tracks_to_predict := [] |}.

(** ** Further properties and inputs *)

(** [i] is a subscript [l[i]] accepts. *)
Definition in_range {A : Type} (l : list A) (i : Z) : Prop :=
  - len l <= i < len l.

(** The track has no state at step [i]. *)
Definition stops_before (i : Z) (track : Track) : Prop :=
  len (states track) <= i.

(** The submission a participant builds from the simulated ids: one
    trajectory of [n] steps per id, and [k] copies of that scene. *)
Definition trajectory_for (n : Z) (i : Z) : SimulatedTrajectory :=
  trajectory_of i (Z.to_nat n).

Definition scene_for (n : Z) (ids : list Z) : JointScene :=
  {| simulated_trajectories := map (trajectory_for n) ids |}.

Definition rollouts_for (name : string) (k n : Z) (ids : list Z)
    : ScenarioRollouts :=
  {| scenario_id := Some name;
     joint_scenes := replicate (Z.to_nat k) (scene_for n ids) |}.

(** The tracks of the scenario replaced by [tracks']. *)
Definition with_tracks (tracks' : list Track) (scenario : Scenario)
    : Scenario :=
  {| tracks := tracks';
     sdc_track_index := sdc_track_index scenario;
     tracks_to_predict := tracks_to_predict scenario |}.

(** The tracks of [sample_scenario] with their states dropped. *)
Definition stateless_tracks : list Track :=
  [ {| id := 7; states := [] |}; {| id := 3; states := [] |};
    {| id := 5; states := [] |} ].

(** No track is valid at the current step. *)
Definition agentless_scenario : Scenario :=
  {| tracks := [track_of 5 false];
     sdc_track_index := 0;
     tracks_to_predict := [] |}.

Definition empty_scene : JointScene := {| simulated_trajectories := [] |}.

Definition empty_rollouts : ScenarioRollouts :=
  {| scenario_id := Some "4f2a";
     joint_scenes := replicate 32 empty_scene |}.

(** ** Runs *)

(** Python leaves one thing open that this module relies on: the order in
    which a set is iterated.  The module iterates a set in two places: in
    [sorted(object_ids)] (line 160), and where the f-string of the
    missing-agents error shows [missing_agents] (line 217).  A run takes
    that order from its runtime, [order]; everything else a run does is
    what the functions above do. *)

(** What a run raises: an exception whose message shows no set, or the
    missing-agents [ValueError], whose message shows the set as its
    elements in iteration order. *)
Inductive raised : Type :=
| Raised (e : exn)
| RaisedMissingAgents (shown : list Z) (simulated_ids : list Z).

Inductive outcome (A : Type) : Type :=
| Returns (a : A)
| Raises (r : raised).

Arguments Returns {A} a.
Arguments Raises {A} r.

#[global] Instance outcome_ret : MRet outcome := fun A a => Returns a.

#[global] Instance outcome_bind : MBind outcome := fun A B k o =>
  match o with
  | Returns a => k a
  | Raises r => Raises r
  end.

(** A step of a run that iterates no set. *)
Definition no_set {A : Type} (r : result A) : outcome A :=
  match r with
  | Ok a => Returns a
  | Err e => Raises (Raised e)
  end.

Section run.

Variable order : gset Z -> list Z.

Definition get_sim_agent_ids_run (scenario : Scenario)
    (challenge_type : challenge_arg) : outcome (list Z) :=
  no_set (get_sim_agent_ids scenario challenge_type).

Definition get_evaluation_sim_agent_ids_run (scenario : Scenario)
    (challenge_type : challenge_arg) : outcome (list Z) :=
  match challenge_type with
  | Tag SIM_AGENTS =>
      sdc ← no_set (getitem ScenarioTracks (tracks scenario)
                      (sdc_track_index scenario));
      object_ids ← no_set (get_evaluation_sim_agent_ids_loop scenario
                             (tracks_to_predict scenario) {[ id sdc ]});
      mret (merge_sort Z.le (order object_ids))
  | Tag SCENARIO_GEN => get_sim_agent_ids_run scenario challenge_type
  | NotATag repr => Raises (Raised (ValueError (InvalidArgument repr)))
  end.

Definition validate_joint_scene_run (joint_scene : JointScene)
    (original_scenario : Scenario) (challenge_type : challenge_arg)
    : outcome unit :=
  config ← no_set (get_submission_config challenge_type);
  sim_agent_ids ← get_sim_agent_ids_run original_scenario challenge_type;
  simulated_ids ← no_set (validate_joint_scene_loop config sim_agent_ids
                            (simulated_trajectories joint_scene) []);
  let missing_agents : gset Z :=
    list_to_set sim_agent_ids ∖ list_to_set simulated_ids in
  if bool_decide (missing_agents ≠ ∅)
  then Raises (RaisedMissingAgents (order missing_agents) simulated_ids)
  else mret ().

Fixpoint validate_scenario_rollouts_loop_run (remaining : list JointScene)
    (original_scenario : Scenario) (challenge_type : challenge_arg)
    : outcome unit :=
  match remaining with
  | [] => mret ()
  | joint_scene :: remaining' =>
      validate_joint_scene_run joint_scene original_scenario challenge_type;;
      validate_scenario_rollouts_loop_run remaining' original_scenario
        challenge_type
  end.

Definition validate_scenario_rollouts_run
    (scenario_rollouts : ScenarioRollouts) (original_scenario : Scenario)
    (challenge_type : challenge_arg) : outcome unit :=
  config ← no_set (get_submission_config challenge_type);
  if negb (HasField_scenario_id scenario_rollouts)
  then Raises (Raised (ValueError MissingField))
  else if negb (len (joint_scenes scenario_rollouts) =? n_rollouts config)
  then Raises (Raised
                 (ValueError
                    (CountMismatch (len (joint_scenes scenario_rollouts))
                       (n_rollouts config))))
  else validate_scenario_rollouts_loop_run (joint_scenes scenario_rollouts)
         original_scenario challenge_type.

End run.

(** A call of one of the four operations, and what it returns. *)
Inductive operation : Type :=
| GetSimAgentIds (scenario : Scenario) (challenge_type : challenge_arg)
| GetEvaluationSimAgentIds (scenario : Scenario)
    (challenge_type : challenge_arg)
| ValidateJointScene (joint_scene : JointScene) (scenario : Scenario)
    (challenge_type : challenge_arg)
| ValidateScenarioRollouts (scenario_rollouts : ScenarioRollouts)
    (scenario : Scenario) (challenge_type : challenge_arg).

Inductive value : Type :=
| Ids (object_ids : list Z)
| NoValue.

Definition run (order : gset Z -> list Z) (op : operation) : outcome value :=
  match op with
  | GetSimAgentIds scenario challenge_type =>
      ids ← get_sim_agent_ids_run scenario challenge_type; mret (Ids ids)
  | GetEvaluationSimAgentIds scenario challenge_type =>
      ids ← get_evaluation_sim_agent_ids_run order scenario challenge_type;
      mret (Ids ids)
  | ValidateJointScene joint_scene scenario challenge_type =>
      validate_joint_scene_run order joint_scene scenario challenge_type;;
      mret NoValue
  | ValidateScenarioRollouts scenario_rollouts scenario challenge_type =>
      validate_scenario_rollouts_run order scenario_rollouts scenario
        challenge_type;;
      mret NoValue
  end.

(** The same call on the functions that leave the order out. *)
Definition result_of (op : operation) : result value :=
  match op with
  | GetSimAgentIds scenario challenge_type =>
      ids ← get_sim_agent_ids scenario challenge_type; mret (Ids ids)
  | GetEvaluationSimAgentIds scenario challenge_type =>
      ids ← get_evaluation_sim_agent_ids scenario challenge_type;
      mret (Ids ids)
  | ValidateJointScene joint_scene scenario challenge_type =>
      validate_joint_scene joint_scene scenario challenge_type;;
      mret NoValue
  | ValidateScenarioRollouts scenario_rollouts scenario challenge_type =>
      validate_scenario_rollouts scenario_rollouts scenario challenge_type;;
      mret NoValue
  end.

(** What is observed of a run: the value returned, or the kind of the
    exception with its payload; of the missing-agents error the payload is
    the set of the ids shown and the list of simulated ids. *)
Definition payload (r : raised) : exn :=
  match r with
  | Raised e => e
  | RaisedMissingAgents shown simulated_ids =>
      ValueError (MissingAgents (list_to_set shown) simulated_ids)
  end.

Definition observed {A : Type} (o : outcome A) : result A :=
  match o with
  | Returns a => Ok a
  | Raises r => Err (payload r)
  end.

(** [order] iterates every set over its elements, each once. *)
Definition enumerates (order : gset Z -> list Z) : Prop :=
  ∀ s, order s ≡ₚ elements s.

(** ** Subscripts *)

Lemma getitem_nonneg {A} (c : container) (l : list A) (i : Z) :
  0 <= i ->
  getitem c l i = match l !! Z.to_nat i with
                  | Some a => Ok a
                  | None => Err (IndexError c)
                  end.
Proof.
  intros Hi. unfold getitem.
  destruct (Z.ltb_spec i 0) as [?|_]; [lia|].
  destruct (Z.ltb_spec i 0) as [?|_]; [lia|]. reflexivity.
Qed.

Lemma getitem_Err {A} (c : container) (l : list A) (i : Z) (e : exn) :
  getitem c l i = Err e -> e = IndexError c.
Proof.
  unfold getitem, raise.
  destruct (_ <? 0); [congruence|].
  destruct (l !! _); congruence.
Qed.

Lemma getitem_in_range {A} (c : container) (l : list A) (i : Z) :
  0 <= i < len l -> ∃ a, getitem c l i = Ok a /\ l !! Z.to_nat i = Some a.
Proof.
  intros [Hi Hlt]. rewrite getitem_nonneg by done.
  destruct (lookup_lt_is_Some_2 l (Z.to_nat i)) as [a Ha].
  - unfold len in Hlt. lia.
  - rewrite Ha. eauto.
Qed.

Lemma getitem_past_end {A} (c : container) (l : list A) (i : Z) :
  len l <= i -> getitem c l i = Err (IndexError c).
Proof.
  intros Hi. unfold len in Hi. rewrite getitem_nonneg by lia.
  rewrite lookup_ge_None_2; [done | lia].
Qed.

Lemma getitem_elem_of {A} (c : container) (l : list A) (i : Z) (a : A) :
  getitem c l i = Ok a -> a ∈ l.
Proof.
  unfold getitem, raise. destruct (_ <? 0); [done|].
  destruct (l !! _) eqn:E; [|done].
  intros [= <-]. eapply list_elem_of_lookup_2, E.
Qed.

(** ** Eligibility *)

Lemma is_valid_sim_agent_Ok (config : SubmissionConfig) (track : Track) :
  has_step (current_time_index config) track ->
  is_valid_sim_agent config track
  = Ok (valid_at (current_time_index config) track).
Proof.
  intros Hstep. unfold is_valid_sim_agent, valid_at.
  destruct (getitem_in_range TrackStates _ _ Hstep) as (st & -> & ->).
  reflexivity.
Qed.

Lemma is_valid_sim_agent_Err (config : SubmissionConfig) (track : Track) e :
  is_valid_sim_agent config track = Err e -> e = IndexError TrackStates.
Proof.
  unfold is_valid_sim_agent.
  destruct (getitem _ _ _) eqn:E; [done|].
  apply getitem_Err in E. cbn. congruence.
Qed.

Lemma is_valid_sim_agent_short (config : SubmissionConfig) (track : Track) :
  0 <= current_time_index config ->
  len (states track) <= current_time_index config ->
  is_valid_sim_agent config track = Err (IndexError TrackStates).
Proof.
  intros _ Hshort. unfold is_valid_sim_agent.
  by rewrite getitem_past_end.
Qed.

Lemma get_sim_agent_ids_loop_Ok config remaining object_ids :
  Forall (has_step (current_time_index config)) remaining ->
  get_sim_agent_ids_loop config remaining object_ids
  = Ok (object_ids
        ++ map id (List.filter (valid_at (current_time_index config))
                     remaining)).
Proof.
  intros Hall. revert object_ids.
  induction Hall as [|track rest Hstep _ IH]; intros object_ids; cbn.
  - by rewrite app_nil_r.
  - rewrite is_valid_sim_agent_Ok by done. cbn.
    destruct (valid_at _ track); rewrite IH; [|done].
    by rewrite <- app_assoc.
Qed.

Lemma get_sim_agent_ids_loop_Err config remaining object_ids e :
  get_sim_agent_ids_loop config remaining object_ids = Err e ->
  e = IndexError TrackStates.
Proof.
  revert object_ids.
  induction remaining as [|track rest IH]; intros object_ids; cbn; [done|].
  destruct (is_valid_sim_agent config track) as [b|e'] eqn:E; cbn.
  - destruct b; apply IH.
  - intros [= <-]. by eapply is_valid_sim_agent_Err.
Qed.

Lemma NoDup_map_filter {A B} (f : A -> B) (p : A -> bool) (l : list A) :
  NoDup (map f l) -> NoDup (map f (List.filter p l)).
Proof.
  induction l as [|a l IH]; cbn; [done|].
  rewrite NoDup_cons. intros [Hnotin Hnd].
  destruct (p a); cbn; [|by apply IH].
  apply NoDup_cons. split; [|by apply IH].
  intros Hin. apply Hnotin.
  apply list_elem_of_In, in_map_iff in Hin as (x & <- & Hx).
  apply list_elem_of_In, in_map. by apply filter_In in Hx as [Hx _].
Qed.

Lemma get_submission_config_Tag (c : ChallengeType) config :
  get_submission_config (Tag c) = Ok config ->
  current_time_index config = 10 /\ n_rollouts config = 32 /\
  (n_simulation_steps config = 80 \/ n_simulation_steps config = 91).
Proof. destruct c; intros [= <-]; cbn; auto. Qed.

(** C3.  On a scenario whose tracks all reach the current step,
    [get_sim_agent_ids] returns the ids of the tracks whose state at
    [current_time_index] is marked valid, in track order; the ids are
    duplicate-free when the track ids are.  [is_valid_sim_agent] answers
    [b] exactly when the state at [current_time_index] exists and its
    [valid] flag is [b], and it answers the same under both configs. *)
Theorem get_sim_agent_ids_spec
    (scenario : Scenario) (c : ChallengeType) (config : SubmissionConfig) :
  get_submission_config (Tag c) = Ok config ->
  Forall (has_step (current_time_index config)) (tracks scenario) ->
  let now := current_time_index config in
  let ids := map id (List.filter (valid_at now) (tracks scenario)) in
  get_sim_agent_ids scenario (Tag c) = Ok ids
  /\ (∀ x, x ∈ ids <->
           ∃ track, track ∈ tracks scenario /\ id track = x /\
                    ∃ state, states track !! Z.to_nat now = Some state /\
                             valid state = true)
  /\ (NoDup (map id (tracks scenario)) -> NoDup ids)
  /\ (∀ track b,
        is_valid_sim_agent config track = Ok b <->
        ∃ state, states track !! Z.to_nat now = Some state /\
                 valid state = b)
  /\ (∀ track,
        is_valid_sim_agent _SIM_AGENTS_SUBMISSION_CONFIG track
        = is_valid_sim_agent _SCENARIO_GEN_SUBMISSION_CONFIG track).
Proof.
  intros Hconfig Hsteps now ids.
  assert (Hnow : now = 10)
    by (destruct (get_submission_config_Tag c config Hconfig) as [? _]; done).
  split; [|split; [|split; [|split]]].
  - unfold get_sim_agent_ids. rewrite Hconfig. cbn.
    by rewrite get_sim_agent_ids_loop_Ok.
  - intros x. subst ids. rewrite list_elem_of_In, in_map_iff. split.
    + intros (track & <- & Hin). apply filter_In in Hin as [Hin Hvalid].
      exists track. split; [by apply list_elem_of_In|]. split; [done|].
      unfold valid_at in Hvalid.
      destruct (states track !! Z.to_nat now) as [state|]; [eauto|done].
    + intros (track & Hin & <- & state & Hstate & Hvalid).
      exists track. split; [done|]. apply filter_In.
      split; [by apply list_elem_of_In|].
      unfold valid_at. by rewrite Hstate.
  - apply NoDup_map_filter.
  - intros track b. unfold is_valid_sim_agent. fold now.
    rewrite getitem_nonneg by lia.
    destruct (states track !! Z.to_nat now) as [state|]; cbn.
    + split; [intros [= <-]; eauto | by intros (? & [= <-] & <-)].
    + split; [done | by intros (? & ? & _)].
  - reflexivity.
Qed.

(** On the sample scenario the simulated ids are those of the first two
    tracks, in track order. *)
Lemma get_sim_agent_ids_spec_witness :
  get_sim_agent_ids sample_scenario (Tag SIM_AGENTS) = Ok [7; 3]
  /\ NoDup [7; 3].
Proof.
  assert (Hsteps : Forall (has_step 10) (tracks sample_scenario))
    by (repeat constructor; vm_compute; congruence).
  destruct (get_sim_agent_ids_spec sample_scenario SIM_AGENTS
              _SIM_AGENTS_SUBMISSION_CONFIG eq_refl Hsteps)
    as (Hids & _ & Hnodup & _).
  split; [exact Hids|].
  apply Hnodup. apply (bool_decide_unpack _). by vm_compute.
Defined.

Lemma get_sim_agent_ids_loop_steps config remaining object_ids ids :
  0 <= current_time_index config ->
  get_sim_agent_ids_loop config remaining object_ids = Ok ids ->
  Forall (has_step (current_time_index config)) remaining.
Proof.
  intros Hnow. revert object_ids.
  induction remaining as [|track rest IH]; intros object_ids; cbn; [done|].
  destruct (is_valid_sim_agent config track) as [b|] eqn:E; [|done].
  cbn. intros Hrest. constructor.
  - unfold is_valid_sim_agent in E. rewrite getitem_nonneg in E by done.
    destruct (states track !! _) eqn:Hlookup; [|done].
    apply lookup_lt_Some in Hlookup. unfold has_step, len. lia.
  - destruct b; eapply IH, Hrest.
Qed.

(** Whenever [get_sim_agent_ids] returns, it returns the ids of the tracks
    valid at the current step. *)
Lemma get_sim_agent_ids_Ok_inv scenario (c : ChallengeType) ids :
  get_sim_agent_ids scenario (Tag c) = Ok ids ->
  Forall (has_step 10) (tracks scenario) /\
  ids = map id (List.filter (valid_at 10) (tracks scenario)).
Proof.
  unfold get_sim_agent_ids.
  destruct (get_submission_config (Tag c)) as [config|] eqn:Hconfig; [|done].
  cbn. intros Hloop.
  destruct (get_submission_config_Tag c config Hconfig) as (Hnow & _).
  pose proof Hloop as Hsteps.
  apply get_sim_agent_ids_loop_steps in Hsteps; [|lia].
  rewrite get_sim_agent_ids_loop_Ok in Hloop by done.
  rewrite Hnow in *. split; [done|]. by injection Hloop as <-.
Qed.

(** ** Sorting a set of ids *)

Lemma sorted_elem_of (s : gset Z) (x : Z) : x ∈ sorted s <-> x ∈ s.
Proof.
  unfold sorted. by rewrite merge_sort_Permutation, elem_of_elements.
Qed.

Lemma sorted_NoDup (s : gset Z) : NoDup (sorted s).
Proof.
  unfold sorted. rewrite merge_sort_Permutation. apply NoDup_elements.
Qed.

Lemma StronglySorted_le_NoDup_lt (l : list Z) :
  StronglySorted Z.le l -> NoDup l -> StronglySorted Z.lt l.
Proof.
  induction 1 as [|x l Hsorted IH Hall]; [constructor|].
  rewrite NoDup_cons. intros [Hnotin Hnd].
  constructor; [by apply IH|].
  rewrite Forall_forall in Hall |- *. intros y Hy.
  destruct (proj1 (Z.lt_eq_cases x y) (Hall y Hy)) as [Hlt|Heq]; [done|].
  subst y. by destruct Hnotin.
Qed.

Lemma sorted_ascending (s : gset Z) : StronglySorted Z.lt (sorted s).
Proof.
  apply StronglySorted_le_NoDup_lt; [|apply sorted_NoDup].
  unfold sorted. apply StronglySorted_merge_sort; apply _.
Qed.

(** The result of sorting does not depend on the order in which the
    elements of the set are enumerated. *)
Lemma merge_sort_enumeration (l1 l2 : list Z) :
  l1 ≡ₚ l2 -> merge_sort Z.le l1 = merge_sort Z.le l2.
Proof.
  intros Hperm.
  apply (Sorted_unique Z.le); try apply Sorted_merge_sort; try apply _.
  by rewrite !merge_sort_Permutation.
Qed.

(** ** Evaluated agents *)

Lemma get_evaluation_sim_agent_ids_loop_Ok
    scenario remaining predicted (object_ids : gset Z) :
  refer_to scenario remaining predicted ->
  get_evaluation_sim_agent_ids_loop scenario remaining object_ids
  = Ok (object_ids ∪ list_to_set (map id predicted)).
Proof.
  intros Hrefer. revert object_ids.
  induction Hrefer as [|entry track rest predicted Hlookup _ IH];
    intros object_ids; cbn.
  - by rewrite (right_id_L ∅ (∪)).
  - rewrite Hlookup. cbn. rewrite IH. by rewrite (assoc_L (∪)).
Qed.

Lemma get_evaluation_sim_agent_ids_loop_Ok_inv
    scenario remaining (object_ids ids : gset Z) :
  get_evaluation_sim_agent_ids_loop scenario remaining object_ids = Ok ids ->
  ∃ predicted, refer_to scenario remaining predicted.
Proof.
  revert object_ids.
  induction remaining as [|entry rest IH]; intros object_ids; cbn.
  - intros _. exists []. constructor.
  - destruct (getitem _ _ _) as [track|] eqn:Hlookup; [|done]. cbn.
    intros [predicted Hrest]%IH. exists (track :: predicted).
    by constructor.
Qed.

Lemma get_evaluation_sim_agent_ids_loop_Err
    scenario remaining (object_ids : gset Z) e :
  get_evaluation_sim_agent_ids_loop scenario remaining object_ids = Err e ->
  e = IndexError ScenarioTracks.
Proof.
  revert object_ids.
  induction remaining as [|entry rest IH]; intros object_ids; cbn; [done|].
  destruct (getitem _ _ _) as [track|e'] eqn:Hlookup; cbn.
  - apply IH.
  - intros [= <-]. by eapply getitem_Err.
Qed.

Lemma get_evaluation_sim_agent_ids_Ok scenario sdc predicted :
  getitem ScenarioTracks (tracks scenario) (sdc_track_index scenario)
  = Ok sdc ->
  refer_to scenario (tracks_to_predict scenario) predicted ->
  get_evaluation_sim_agent_ids scenario (Tag SIM_AGENTS)
  = Ok (sorted ({[ id sdc ]} ∪ list_to_set (map id predicted))).
Proof.
  intros Hsdc Hrefer. cbn. rewrite Hsdc. cbn.
  by rewrite (get_evaluation_sim_agent_ids_loop_Ok _ _ predicted).
Qed.

Lemma get_evaluation_sim_agent_ids_Ok_inv scenario ids :
  get_evaluation_sim_agent_ids scenario (Tag SIM_AGENTS) = Ok ids ->
  ∃ sdc predicted,
    getitem ScenarioTracks (tracks scenario) (sdc_track_index scenario)
    = Ok sdc /\
    refer_to scenario (tracks_to_predict scenario) predicted /\
    ids = sorted ({[ id sdc ]} ∪ list_to_set (map id predicted)).
Proof.
  intros Hresult. pose proof Hresult as Hcopy. cbn in Hcopy.
  destruct (getitem _ _ _) as [sdc|] eqn:Hsdc; [|done]. cbn in Hcopy.
  destruct (get_evaluation_sim_agent_ids_loop _ _ _) as [s|] eqn:Hloop;
    [|done].
  apply get_evaluation_sim_agent_ids_loop_Ok_inv in Hloop
    as [predicted Hrefer].
  exists sdc, predicted. split; [done|]. split; [done|].
  rewrite (get_evaluation_sim_agent_ids_Ok _ sdc predicted) in Hresult
    by done.
  by injection Hresult as <-.
Qed.

Lemma elem_of_evaluated (sdc : Track) (predicted : list Track) (x : Z) :
  x ∈ sorted ({[ id sdc ]} ∪ list_to_set (map id predicted)) <->
  x = id sdc \/ ∃ track, track ∈ predicted /\ id track = x.
Proof.
  rewrite sorted_elem_of, elem_of_union, elem_of_singleton,
    elem_of_list_to_set, list_elem_of_In, in_map_iff.
  split.
  - intros [->|(track & <- & Hin)]; [by left|].
    right. exists track. by rewrite list_elem_of_In.
  - intros [->|(track & Hin & <-)]; [by left|].
    right. exists track. by rewrite <- list_elem_of_In.
Qed.

(** C4.  With [sdc] the track at [sdc_track_index] and [predicted] the
    tracks the [tracks_to_predict] entries refer to, the evaluated ids of
    the Sim Agents challenge are the union of the id of [sdc] and the ids
    of [predicted]: the result is that set in ascending order, every id
    once. *)
Theorem get_evaluation_sim_agent_ids_SIM_AGENTS
    (scenario : Scenario) (sdc : Track) (predicted : list Track) :
  getitem ScenarioTracks (tracks scenario) (sdc_track_index scenario)
  = Ok sdc ->
  refer_to scenario (tracks_to_predict scenario) predicted ->
  ∃ ids,
    get_evaluation_sim_agent_ids scenario (Tag SIM_AGENTS) = Ok ids /\
    ids = sorted ({[ id sdc ]} ∪ list_to_set (map id predicted)) /\
    (∀ x, x ∈ ids <->
          x = id sdc \/ ∃ track, track ∈ predicted /\ id track = x) /\
    StronglySorted Z.lt ids /\
    NoDup ids.
Proof.
  intros Hsdc Hrefer. eexists. split; [|split; [reflexivity|]].
  - by apply get_evaluation_sim_agent_ids_Ok.
  - split; [apply elem_of_evaluated|].
    split; [apply sorted_ascending | apply sorted_NoDup].
Qed.

(** On the sample scenario: the autonomous vehicle (id 7) and the track to
    be predicted (id 3). *)
Lemma get_evaluation_sim_agent_ids_SIM_AGENTS_witness :
  ∃ ids,
    get_evaluation_sim_agent_ids sample_scenario (Tag SIM_AGENTS) = Ok ids /\
    ids = sorted ({[ 7 ]} ∪ list_to_set (map id [track_of 3 true])) /\
    (∀ x, x ∈ ids <->
          x = 7 \/ ∃ track, track ∈ [track_of 3 true] /\ id track = x) /\
    StronglySorted Z.lt ids /\
    NoDup ids.
Proof.
  apply (get_evaluation_sim_agent_ids_SIM_AGENTS sample_scenario
           (track_of 7 true) [track_of 3 true]).
  - reflexivity.
  - repeat constructor.
Defined.

Lemma refer_to_elem_of scenario entries predicted track :
  refer_to scenario entries predicted ->
  track ∈ predicted -> track ∈ tracks scenario.
Proof.
  induction 1 as [|entry t rest predicted Hlookup _ IH]; [by intros ?%elem_of_nil|].
  intros [->|Hin]%elem_of_cons; [|by apply IH].
  by eapply getitem_elem_of.
Qed.

Lemma elem_of_simulated scenario track :
  track ∈ tracks scenario -> valid_at 10 track = true ->
  id track ∈ map id (List.filter (valid_at 10) (tracks scenario)).
Proof.
  intros Hin Hvalid. apply list_elem_of_In, in_map, filter_In.
  split; [by apply list_elem_of_In | done].
Qed.

(** C5, as the code has it.  The claim's inclusion fails when a track that
    is to be predicted is not valid at the current step. *)
Lemma evaluated_not_subset_simulated :
  get_evaluation_sim_agent_ids stale_prediction_scenario (Tag SIM_AGENTS)
  = Ok [5; 7] /\
  get_sim_agent_ids stale_prediction_scenario (Tag SIM_AGENTS) = Ok [7; 3] /\
  ¬ (∀ x : Z, x ∈ [5; 7] -> x ∈ [7; 3]).
Proof.
  split; [by vm_compute|]. split; [by vm_compute|].
  intros Hsub. specialize (Hsub 5 ltac:(by left)).
  apply elem_of_cons in Hsub as [?|Hsub]; [done|].
  apply elem_of_cons in Hsub as [?|Hsub]; [done|].
  by apply elem_of_nil in Hsub.
Qed.

(** C5, amended.  Whenever the evaluated ids of the Sim Agents challenge
    are returned, they contain the id of the track at [sdc_track_index];
    and when that track and every track referred to by [tracks_to_predict]
    are valid at the current step, every evaluated id is a simulated id,
    the id of a track valid at the current step. *)
Theorem evaluated_ids_SIM_AGENTS
    (scenario : Scenario) (ids : list Z) (sdc : Track)
    (predicted : list Track) :
  get_evaluation_sim_agent_ids scenario (Tag SIM_AGENTS) = Ok ids ->
  getitem ScenarioTracks (tracks scenario) (sdc_track_index scenario)
  = Ok sdc ->
  refer_to scenario (tracks_to_predict scenario) predicted ->
  let now := current_time_index _SIM_AGENTS_SUBMISSION_CONFIG in
  id sdc ∈ ids /\
  (valid_at now sdc = true ->
   Forall (λ track, valid_at now track = true) predicted ->
   ∀ simulated,
     get_sim_agent_ids scenario (Tag SIM_AGENTS) = Ok simulated ->
     ids ⊆ simulated /\
     ∀ x, x ∈ ids ->
          ∃ track, track ∈ tracks scenario /\ id track = x /\
                   valid_at now track = true).
Proof.
  intros Hids Hsdc Hrefer now.
  rewrite (get_evaluation_sim_agent_ids_Ok _ sdc predicted) in Hids by done.
  injection Hids as <-.
  split; [apply elem_of_evaluated; by left|].
  intros Hsdc_valid Hpredicted_valid simulated Hsimulated.
  apply get_sim_agent_ids_Ok_inv in Hsimulated as [_ ->].
  assert (Hsource : ∀ x,
    x ∈ sorted ({[ id sdc ]} ∪ list_to_set (map id predicted)) ->
    ∃ track, track ∈ tracks scenario /\ id track = x /\
             valid_at now track = true).
  { intros x [->|(track & Hin & <-)]%elem_of_evaluated.
    - exists sdc. split; [by eapply getitem_elem_of | done].
    - exists track. split; [by eapply refer_to_elem_of|]. split; [done|].
      by eapply (proj1 (Forall_forall _ _) Hpredicted_valid). }
  split; [|done].
  intros x (track & Hin & <- & Hvalid)%Hsource.
  by apply elem_of_simulated.
Qed.

(** On the sample scenario both evaluated agents are valid at the current
    step, and both are simulated. *)
Lemma evaluated_ids_SIM_AGENTS_witness :
  7 ∈ [3; 7] /\ [3; 7] ⊆ [7; 3].
Proof.
  destruct (evaluated_ids_SIM_AGENTS sample_scenario [3; 7]
              (track_of 7 true) [track_of 3 true])
    as [Hsdc Hsub].
  - reflexivity.
  - reflexivity.
  - repeat constructor.
  - split; [exact Hsdc|].
    refine (proj1 (Hsub _ _ [7; 3] _)).
    + reflexivity.
    + repeat constructor.
    + reflexivity.
Defined.

(** C6.  For the Scenario Gen challenge the evaluated ids are the
    simulated ids, whatever [sdc_track_index] and [tracks_to_predict]
    hold. *)
Theorem get_evaluation_sim_agent_ids_SCENARIO_GEN (scenario : Scenario) :
  get_evaluation_sim_agent_ids scenario (Tag SCENARIO_GEN)
  = get_sim_agent_ids scenario (Tag SCENARIO_GEN)
  /\ ∀ (sdc_track_index' : Z) (tracks_to_predict' : list RequiredPrediction),
       get_evaluation_sim_agent_ids
         {| tracks := tracks scenario;
            sdc_track_index := sdc_track_index';
            tracks_to_predict := tracks_to_predict' |}
         (Tag SCENARIO_GEN)
       = get_evaluation_sim_agent_ids scenario (Tag SCENARIO_GEN).
Proof. split; [reflexivity|]. intros ? ?. reflexivity. Qed.

(** C7.  [get_submission_config] maps each member of [ChallengeType] to
    its fixed config and raises the unknown-challenge [ValueError] on any
    other argument.  It takes nothing but the tag, and the two configs are
    values: no operation has a way to change them. *)
#[warnings="-inexact-float"]
Theorem get_submission_config_spec :
  get_submission_config (Tag SIM_AGENTS)
  = Ok {| current_time_index := 10; n_simulation_steps := 80;
          n_rollouts := 32; step_duration_seconds := 0.1 |}
  /\ get_submission_config (Tag SCENARIO_GEN)
     = Ok {| current_time_index := 10; n_simulation_steps := 91;
             n_rollouts := 32; step_duration_seconds := 0.1 |}
  /\ (∀ repr, get_submission_config (NotATag repr)
              = Err (ValueError (InvalidArgument repr))).
Proof. repeat split. Qed.

(** ** Validating a joint scene *)

Lemma validate_joint_scene_loop_conforms
    config required_ids t remaining simulated_ids :
  conforms (n_simulation_steps config) required_ids t ->
  validate_joint_scene_loop config required_ids (t :: remaining) simulated_ids
  = validate_joint_scene_loop config required_ids remaining
      (simulated_ids ++ [object_id t]).
Proof.
  intros [(Hx & Hy & Hz & Hh) Hin].
  cbn [validate_joint_scene_loop].
  unfold _raise_if_wrong_length, getattr. cbn.
  rewrite Hx, Hy, Hz, Hh, Z.eqb_refl. cbn.
  by rewrite bool_decide_false by (by intros ?).
Qed.

Lemma validate_joint_scene_loop_violation
    config required_ids t remaining simulated_ids m :
  violation (n_simulation_steps config) required_ids t m ->
  validate_joint_scene_loop config required_ids (t :: remaining) simulated_ids
  = Err (ValueError m).
Proof.
  intros Hviolation.
  cbn [validate_joint_scene_loop].
  unfold _raise_if_wrong_length, getattr. cbn.
  destruct Hviolation as [Hx|Hx Hy|Hx Hy Hz|Hx Hy Hz Hh|(Hx & Hy & Hz & Hh) Hout].
  - by apply Z.eqb_neq in Hx as ->.
  - rewrite Hx, Z.eqb_refl. cbn.
    by apply Z.eqb_neq in Hy as ->.
  - rewrite Hx, Z.eqb_refl. cbn. rewrite Hy, Z.eqb_refl. cbn.
    by apply Z.eqb_neq in Hz as ->.
  - rewrite Hx, Z.eqb_refl. cbn. rewrite Hy, Z.eqb_refl. cbn.
    rewrite Hz, Z.eqb_refl. cbn.
    by apply Z.eqb_neq in Hh as ->.
  - rewrite Hx, Hy, Hz, Hh, Z.eqb_refl. cbn.
    by rewrite bool_decide_true.
Qed.

(** A trajectory either passes every check or fails a first one. *)
Lemma conforms_or_violation n required_ids t :
  conforms n required_ids t \/ ∃ m, violation n required_ids t m /\
                                     joint_scene_error m.
Proof.
  destruct (decide (len (center_x t) = n)) as [Hx|Hx];
    [|right; eexists; split; [by apply bad_center_x | done]].
  destruct (decide (len (center_y t) = n)) as [Hy|Hy];
    [|right; eexists; split; [by apply bad_center_y | done]].
  destruct (decide (len (center_z t) = n)) as [Hz|Hz];
    [|right; eexists; split; [by apply bad_center_z | done]].
  destruct (decide (len (heading t) = n)) as [Hh|Hh];
    [|right; eexists; split; [by apply bad_heading | done]].
  destruct (decide (object_id t ∈ required_ids)) as [Hin|Hout].
  - left. by repeat split.
  - right. eexists. split; [by apply bad_object_id | done].
Qed.

Lemma violation_not_conforms n required_ids t m :
  violation n required_ids t m -> ¬ conforms n required_ids t.
Proof.
  intros Hviolation [(Hx & Hy & Hz & Hh) Hin].
  by destruct Hviolation.
Qed.

Lemma validate_joint_scene_loop_Ok
    config required_ids remaining simulated_ids :
  Forall (conforms (n_simulation_steps config) required_ids) remaining ->
  validate_joint_scene_loop config required_ids remaining simulated_ids
  = Ok (simulated_ids ++ map object_id remaining).
Proof.
  intros Hall. revert simulated_ids.
  induction Hall as [|t rest Ht _ IH]; intros simulated_ids.
  - cbn. by rewrite app_nil_r.
  - rewrite validate_joint_scene_loop_conforms by done.
    rewrite IH. cbn. by rewrite <- app_assoc.
Qed.

Lemma validate_joint_scene_loop_first_violation
    config required_ids before t after simulated_ids m :
  Forall (conforms (n_simulation_steps config) required_ids) before ->
  violation (n_simulation_steps config) required_ids t m ->
  validate_joint_scene_loop config required_ids (before ++ t :: after)
    simulated_ids
  = Err (ValueError m).
Proof.
  intros Hbefore Hviolation. revert simulated_ids.
  induction Hbefore as [|t' rest Ht' _ IH]; intros simulated_ids; cbn [app].
  - by apply validate_joint_scene_loop_violation.
  - rewrite validate_joint_scene_loop_conforms by done. apply IH.
Qed.

(** The loop either accepts every trajectory, or stops at the first one
    that fails a check. *)
Lemma validate_joint_scene_loop_cases
    config required_ids remaining simulated_ids :
  let n := n_simulation_steps config in
  (Forall (conforms n required_ids) remaining /\
   validate_joint_scene_loop config required_ids remaining simulated_ids
   = Ok (simulated_ids ++ map object_id remaining))
  \/ (∃ before t after m,
        remaining = before ++ t :: after /\
        Forall (conforms n required_ids) before /\
        violation n required_ids t m /\ joint_scene_error m /\
        validate_joint_scene_loop config required_ids remaining simulated_ids
        = Err (ValueError m)).
Proof.
  intros n.
  assert (Hsplit : Forall (conforms n required_ids) remaining \/
    ∃ before t after m, remaining = before ++ t :: after /\
      Forall (conforms n required_ids) before /\
      violation n required_ids t m /\ joint_scene_error m).
  { induction remaining as [|t rest IH]; [by left|].
    destruct (conforms_or_violation n required_ids t)
      as [Ht|(m & Hviolation & Hkind)].
    - destruct IH as [Hrest|(before & t' & after & m & -> & ? & ? & ?)].
      + left. by constructor.
      + right. exists (t :: before), t', after, m. by repeat split; [constructor|..].
    - right. by exists [], t, rest, m. }
  destruct Hsplit as [Hall|(before & t & after & m & -> & Hb & Hv & Hk)].
  - left. split; [done|]. by apply validate_joint_scene_loop_Ok.
  - right. exists before, t, after, m. repeat split; try done.
    by apply validate_joint_scene_loop_first_violation.
Qed.

Lemma covered_difference required_ids trajectories :
  covered required_ids trajectories <->
  list_to_set required_ids ∖ list_to_set (map object_id trajectories)
  = (∅ : gset Z).
Proof.
  split.
  - intros Hcovered. apply set_eq. intros x.
    rewrite elem_of_difference, !elem_of_list_to_set.
    split; [|by intros ?%elem_of_empty].
    intros [Hin Hnot]. destruct Hnot.
    destruct (Hcovered x Hin) as (t & Ht & <-).
    apply list_elem_of_In, in_map. by apply list_elem_of_In.
  - intros Hempty i Hi.
    destruct (decide (i ∈ map object_id trajectories)) as [Hseen|Hnot].
    + apply list_elem_of_In, in_map_iff in Hseen as (t & <- & Ht).
      exists t. split; [by apply list_elem_of_In | done].
    + assert (Hdiff : i ∈ (list_to_set required_ids
                           ∖ list_to_set (map object_id trajectories)
                           : gset Z)).
      { rewrite elem_of_difference, !elem_of_list_to_set. by split. }
      rewrite Hempty in Hdiff. by apply elem_of_empty in Hdiff.
Qed.

Section joint_scene.

Variables (joint_scene : JointScene) (scenario : Scenario).
Variables (c : ChallengeType) (config : SubmissionConfig).
Variable required_ids : list Z.

Hypothesis Hconfig : get_submission_config (Tag c) = Ok config.
Hypothesis Hrequired : get_sim_agent_ids scenario (Tag c) = Ok required_ids.

Let n := n_simulation_steps config.
Let trajectories := simulated_trajectories joint_scene.

Lemma validate_joint_scene_unfold :
  validate_joint_scene joint_scene scenario (Tag c)
  = (simulated_ids ← validate_joint_scene_loop config required_ids
                       trajectories [];
     if bool_decide (list_to_set required_ids ∖ list_to_set simulated_ids
                     ≠ (∅ : gset Z))
     then Err (ValueError
                 (MissingAgents
                    (list_to_set required_ids ∖ list_to_set simulated_ids)
                    simulated_ids))
     else Ok ()).
Proof.
  unfold validate_joint_scene. rewrite Hconfig. cbn -[get_sim_agent_ids].
  rewrite Hrequired. reflexivity.
Qed.

Lemma validate_joint_scene_first_violation before t after m :
  trajectories = before ++ t :: after ->
  Forall (conforms n required_ids) before ->
  violation n required_ids t m ->
  validate_joint_scene joint_scene scenario (Tag c) = Err (ValueError m).
Proof.
  intros Hsplit Hbefore Hviolation.
  rewrite validate_joint_scene_unfold, Hsplit.
  by rewrite (validate_joint_scene_loop_first_violation _ _ _ _ _ _ m).
Qed.

Lemma validate_joint_scene_all_conform :
  Forall (conforms n required_ids) trajectories ->
  validate_joint_scene joint_scene scenario (Tag c)
  = if bool_decide (list_to_set required_ids
                    ∖ list_to_set (map object_id trajectories)
                    ≠ (∅ : gset Z))
    then Err (ValueError
                (MissingAgents
                   (list_to_set required_ids
                    ∖ list_to_set (map object_id trajectories))
                   (map object_id trajectories)))
    else Ok ().
Proof.
  intros Hall.
  by rewrite validate_joint_scene_unfold, validate_joint_scene_loop_Ok.
Qed.

Lemma validate_joint_scene_missing :
  Forall (conforms n required_ids) trajectories ->
  ¬ covered required_ids trajectories ->
  validate_joint_scene joint_scene scenario (Tag c)
  = Err (ValueError
           (MissingAgents
              (list_to_set required_ids
               ∖ list_to_set (map object_id trajectories))
              (map object_id trajectories))).
Proof.
  intros Hall Hnot. rewrite validate_joint_scene_all_conform by done.
  rewrite bool_decide_true; [done|].
  intros Hempty. by apply Hnot, covered_difference.
Qed.

Lemma validate_joint_scene_Ok_iff :
  validate_joint_scene joint_scene scenario (Tag c) = Ok () <->
  Forall (conforms n required_ids) trajectories /\
  covered required_ids trajectories.
Proof.
  split.
  - intros Hok.
    destruct (validate_joint_scene_loop_cases config required_ids
                trajectories [])
      as [[Hall _]|(before & t & after & m & Hsplit & Hb & Hv & _ & _)].
    + split; [done|].
      rewrite validate_joint_scene_all_conform in Hok by done.
      case_bool_decide as Hdiff; [done|].
      by apply covered_difference.
    + by rewrite (validate_joint_scene_first_violation before t after m)
        in Hok.
  - intros [Hall Hcov].
    rewrite validate_joint_scene_all_conform by done.
    apply covered_difference in Hcov.
    by rewrite bool_decide_false by (by intros ?).
Qed.

Lemma validate_joint_scene_Err e :
  validate_joint_scene joint_scene scenario (Tag c) = Err e ->
  ∃ m, e = ValueError m /\ joint_scene_error m.
Proof.
  destruct (validate_joint_scene_loop_cases config required_ids
              trajectories [])
    as [[Hall _]|(before & t & after & m & Hsplit & Hb & Hv & Hkind & _)].
  - rewrite validate_joint_scene_all_conform by done.
    case_bool_decide; [|done]. intros [= <-]. by eexists.
  - rewrite (validate_joint_scene_first_violation before t after m) by done.
    intros [= <-]. by exists m.
Qed.

End joint_scene.

(** C1.  With [required_ids] the simulated agent ids of the scenario,
    [validate_joint_scene] returns exactly when every trajectory has its
    four fields of length [n_simulation_steps], every [object_id] is a
    required id, and every required id is the [object_id] of a trajectory.
    Otherwise it raises one error: that of the first failing check of the
    first failing trajectory (a length, in field order, or an id that is
    not required), or, when every trajectory passes, the missing-agents
    error. *)
Theorem validate_joint_scene_spec
    (joint_scene : JointScene) (scenario : Scenario) (c : ChallengeType)
    (config : SubmissionConfig) (required_ids : list Z) :
  get_submission_config (Tag c) = Ok config ->
  get_sim_agent_ids scenario (Tag c) = Ok required_ids ->
  let n := n_simulation_steps config in
  let trajectories := simulated_trajectories joint_scene in
  let outcome := validate_joint_scene joint_scene scenario (Tag c) in
  (outcome = Ok () <->
     Forall (well_shaped n) trajectories /\
     Forall (λ t, object_id t ∈ required_ids) trajectories /\
     covered required_ids trajectories)
  /\ (∀ before t after m,
        trajectories = before ++ t :: after ->
        Forall (conforms n required_ids) before ->
        violation n required_ids t m ->
        outcome = Err (ValueError m))
  /\ (Forall (conforms n required_ids) trajectories ->
      ¬ covered required_ids trajectories ->
      outcome
      = Err (ValueError
               (MissingAgents
                  (list_to_set required_ids
                   ∖ list_to_set (map object_id trajectories))
                  (map object_id trajectories))))
  /\ (∀ e, outcome = Err e -> ∃ m, e = ValueError m /\ joint_scene_error m).
Proof.
  intros Hconfig Hrequired n trajectories outcome.
  split; [|split; [|split]].
  - subst outcome.
    rewrite (validate_joint_scene_Ok_iff _ _ _ _ _ Hconfig Hrequired).
    unfold conforms. rewrite Forall_and. tauto.
  - intros before t after m.
    apply (validate_joint_scene_first_violation _ _ _ _ _ Hconfig Hrequired).
  - apply (validate_joint_scene_missing _ _ _ _ _ Hconfig Hrequired).
  - apply (validate_joint_scene_Err _ _ _ _ _ Hconfig Hrequired).
Qed.

(** The sample scene validates; a short [center_x] and a left-out agent
    are reported. *)
Lemma validate_joint_scene_spec_witness :
  validate_joint_scene sample_scene sample_scenario (Tag SIM_AGENTS) = Ok ()
  /\ validate_joint_scene short_scene sample_scenario (Tag SIM_AGENTS)
     = Err (ValueError (ShapeMismatch "center_x" 79 80))
  /\ validate_joint_scene partial_scene sample_scenario (Tag SIM_AGENTS)
     = Err (ValueError
              (MissingAgents (list_to_set [7; 3] ∖ list_to_set [7]) [7])).
Proof.
  split; [|split].
  - apply (validate_joint_scene_spec sample_scene sample_scenario SIM_AGENTS
             _SIM_AGENTS_SUBMISSION_CONFIG [7; 3]); [reflexivity ..|].
    split; [by repeat constructor|]. split.
    + by repeat constructor.
    + intros i [->|[->|[]%elem_of_nil]%elem_of_cons]%elem_of_cons;
        [exists (trajectory_of 7 80) | exists (trajectory_of 3 80)];
        by repeat constructor.
  - destruct (validate_joint_scene_spec short_scene sample_scenario
                SIM_AGENTS _SIM_AGENTS_SUBMISSION_CONFIG [7; 3]
                eq_refl eq_refl) as (_ & Hfirst & _).
    apply (Hfirst [trajectory_of 7 80] (trajectory_of 3 79) []).
    + reflexivity.
    + by repeat constructor.
    + by apply bad_center_x.
  - destruct (validate_joint_scene_spec partial_scene sample_scenario
                SIM_AGENTS _SIM_AGENTS_SUBMISSION_CONFIG [7; 3]
                eq_refl eq_refl) as (_ & _ & Hmissing & _).
    apply Hmissing.
    + by repeat constructor.
    + intros Hcovered.
      destruct (Hcovered 3) as (t & [->|[]%elem_of_nil]%elem_of_cons & Hid);
        [by right; left | done].
Defined.

(** C9.  A joint scene in which some object id appears more than once,
    and whose trajectories are all well shaped, all for required ids, and
    cover the required ids, validates; so does the scene with a copy of
    any of its trajectories appended.  No error of [validate_joint_scene]
    is about uniqueness: whatever the scene, the error raised is a length
    mismatch, an id that is not required, or missing agents. *)
Theorem validate_joint_scene_tolerates_duplicates
    (joint_scene : JointScene) (scenario : Scenario) (c : ChallengeType)
    (config : SubmissionConfig) (required_ids : list Z) :
  get_submission_config (Tag c) = Ok config ->
  get_sim_agent_ids scenario (Tag c) = Ok required_ids ->
  let n := n_simulation_steps config in
  let trajectories := simulated_trajectories joint_scene in
  Forall (well_shaped n) trajectories ->
  Forall (λ t, object_id t ∈ required_ids) trajectories ->
  covered required_ids trajectories ->
  ¬ NoDup (map object_id trajectories) ->
  validate_joint_scene joint_scene scenario (Tag c) = Ok ()
  /\ (∀ t, t ∈ trajectories ->
           validate_joint_scene
             {| simulated_trajectories := trajectories ++ [t] |}
             scenario (Tag c)
           = Ok ())
  /\ (∀ other e,
        validate_joint_scene other scenario (Tag c) = Err e ->
        ∃ m, e = ValueError m /\ joint_scene_error m).
Proof.
  intros Hconfig Hrequired n trajectories Hshaped Hknown Hcovered _.
  assert (Hall : Forall (conforms n required_ids) trajectories)
    by (unfold conforms; by rewrite Forall_and).
  split; [|split].
  - by apply (validate_joint_scene_Ok_iff _ _ _ _ _ Hconfig Hrequired).
  - intros t Ht.
    apply (validate_joint_scene_Ok_iff _ _ _ _ _ Hconfig Hrequired). cbn.
    split.
    + apply Forall_app. split; [done|]. constructor; [|done].
      by apply (proj1 (Forall_forall _ _) Hall).
    + intros i Hi. destruct (Hcovered i Hi) as (t' & Ht' & Hid).
      exists t'. split; [|done]. apply elem_of_app. by left.
  - intros other e.
    apply (validate_joint_scene_Err _ _ _ _ _ Hconfig Hrequired).
Qed.

(** Agent 7 appears twice in [duplicate_scene]. *)
Lemma validate_joint_scene_tolerates_duplicates_witness :
  validate_joint_scene duplicate_scene sample_scenario (Tag SIM_AGENTS)
  = Ok ().
Proof.
  refine (proj1 (validate_joint_scene_tolerates_duplicates duplicate_scene
                   sample_scenario SIM_AGENTS _SIM_AGENTS_SUBMISSION_CONFIG
                   [7; 3] eq_refl eq_refl _ _ _ _)).
  - by repeat constructor.
  - by repeat constructor.
  - intros i [->|[->|[]%elem_of_nil]%elem_of_cons]%elem_of_cons;
      [exists (trajectory_of 7 80) | exists (trajectory_of 3 80)];
      by repeat constructor.
  - intros [Hnotin _]%NoDup_cons. apply Hnotin. by right; left.
Defined.

(** ** Validating the rollouts of a scenario *)

Lemma validate_scenario_rollouts_loop_Ok_iff scenes scenario challenge_type :
  validate_scenario_rollouts_loop scenes scenario challenge_type = Ok () <->
  Forall (λ joint_scene,
            validate_joint_scene joint_scene scenario challenge_type = Ok ())
    scenes.
Proof.
  induction scenes as [|joint_scene rest IH]; cbn.
  - split; [constructor | done].
  - rewrite Forall_cons, <- IH.
    destruct (validate_joint_scene joint_scene scenario challenge_type)
      as [[]|e]; cbn; [tauto|].
    split; [done | by intros [? _]].
Qed.

Lemma validate_scenario_rollouts_loop_first_failure
    before joint_scene after scenario challenge_type e :
  Forall (λ joint_scene,
            validate_joint_scene joint_scene scenario challenge_type = Ok ())
    before ->
  validate_joint_scene joint_scene scenario challenge_type = Err e ->
  validate_scenario_rollouts_loop (before ++ joint_scene :: after)
    scenario challenge_type
  = Err e.
Proof.
  intros Hbefore Hfails.
  induction Hbefore as [|scene rest Hscene _ IH]; cbn.
  - by rewrite Hfails.
  - by rewrite Hscene.
Qed.

Lemma validate_scenario_rollouts_loop_Err scenes scenario challenge_type e :
  validate_scenario_rollouts_loop scenes scenario challenge_type = Err e ->
  ∃ joint_scene,
    joint_scene ∈ scenes /\
    validate_joint_scene joint_scene scenario challenge_type = Err e.
Proof.
  induction scenes as [|joint_scene rest IH]; cbn; [done|].
  destruct (validate_joint_scene joint_scene scenario challenge_type)
    as [[]|e'] eqn:Hscene; cbn.
  - intros (scene & Hin & Hfails)%IH. exists scene.
    split; [by right | done].
  - intros [= <-]. exists joint_scene. split; [by left | done].
Qed.

Lemma validate_scenario_rollouts_unfold
    scenario_rollouts scenario challenge_type config :
  get_submission_config challenge_type = Ok config ->
  validate_scenario_rollouts scenario_rollouts scenario challenge_type
  = match scenario_id scenario_rollouts with
    | None => Err (ValueError MissingField)
    | Some _ =>
        if len (joint_scenes scenario_rollouts) =? n_rollouts config
        then validate_scenario_rollouts_loop (joint_scenes scenario_rollouts)
               scenario challenge_type
        else Err (ValueError
                    (CountMismatch (len (joint_scenes scenario_rollouts))
                       (n_rollouts config)))
    end.
Proof.
  intros Hconfig. unfold validate_scenario_rollouts, HasField_scenario_id.
  rewrite Hconfig. cbn.
  destruct (scenario_id scenario_rollouts); [|done]. cbn.
  by destruct (_ =? _).
Qed.

(** C2.  [validate_scenario_rollouts] returns exactly when [scenario_id]
    is set, there are [n_rollouts] joint scenes, and every joint scene
    validates.  Without [scenario_id] it raises the missing-field error;
    with it, a wrong number of joint scenes raises the count error with
    the actual and the expected number; with both right, the error of the
    first joint scene that fails is the error of the call. *)
Theorem validate_scenario_rollouts_spec
    (scenario_rollouts : ScenarioRollouts) (scenario : Scenario)
    (c : ChallengeType) (config : SubmissionConfig) :
  get_submission_config (Tag c) = Ok config ->
  let scenes := joint_scenes scenario_rollouts in
  let valid_scene := λ joint_scene,
    validate_joint_scene joint_scene scenario (Tag c) = Ok () in
  let outcome :=
    validate_scenario_rollouts scenario_rollouts scenario (Tag c) in
  (outcome = Ok () <->
     scenario_id scenario_rollouts ≠ None /\
     len scenes = n_rollouts config /\
     Forall valid_scene scenes)
  /\ (scenario_id scenario_rollouts = None ->
      outcome = Err (ValueError MissingField))
  /\ (scenario_id scenario_rollouts ≠ None ->
      len scenes ≠ n_rollouts config ->
      outcome = Err (ValueError (CountMismatch (len scenes)
                                   (n_rollouts config))))
  /\ (scenario_id scenario_rollouts ≠ None ->
      len scenes = n_rollouts config ->
      ∀ before joint_scene after e,
        scenes = before ++ joint_scene :: after ->
        Forall valid_scene before ->
        validate_joint_scene joint_scene scenario (Tag c) = Err e ->
        outcome = Err e).
Proof.
  intros Hconfig scenes valid_scene outcome. subst outcome.
  rewrite (validate_scenario_rollouts_unfold _ _ _ _ Hconfig). fold scenes.
  destruct (scenario_id scenario_rollouts) as [name|].
  - destruct (Z.eqb_spec (len scenes) (n_rollouts config)) as [Hcount|Hcount].
    + split; [|split; [done|split; [done|]]].
      * rewrite validate_scenario_rollouts_loop_Ok_iff. by intuition.
      * intros _ _ before joint_scene after e -> Hbefore Hfails.
        by apply validate_scenario_rollouts_loop_first_failure.
    + split; [|split; [done|split; [done|done]]].
      split; [done | by intros (_ & ? & _)].
  - split; [|split; [done|split; [done|done]]].
    split; [done | by intros (? & _)].
Qed.

(** The sample rollouts validate; the three kinds of failure are
    reported, the short trajectory of the second scene before the agent
    missing from the third. *)
Lemma validate_scenario_rollouts_spec_witness :
  validate_scenario_rollouts sample_rollouts sample_scenario (Tag SIM_AGENTS)
  = Ok ()
  /\ validate_scenario_rollouts unnamed_rollouts sample_scenario
       (Tag SIM_AGENTS)
     = Err (ValueError MissingField)
  /\ validate_scenario_rollouts few_rollouts sample_scenario
       (Tag SIM_AGENTS)
     = Err (ValueError (CountMismatch 31 32))
  /\ validate_scenario_rollouts flawed_rollouts sample_scenario
       (Tag SIM_AGENTS)
     = Err (ValueError (ShapeMismatch "center_x" 79 80)).
Proof.
  split; [|split; [|split]].
  - apply (validate_scenario_rollouts_spec sample_rollouts sample_scenario
             SIM_AGENTS _SIM_AGENTS_SUBMISSION_CONFIG eq_refl).
    split; [done|]. split; [reflexivity|].
    apply Forall_replicate. by vm_compute.
  - by apply (validate_scenario_rollouts_spec unnamed_rollouts
                sample_scenario SIM_AGENTS _SIM_AGENTS_SUBMISSION_CONFIG
                eq_refl).
  - by apply (validate_scenario_rollouts_spec few_rollouts sample_scenario
                SIM_AGENTS _SIM_AGENTS_SUBMISSION_CONFIG eq_refl).
  - destruct (validate_scenario_rollouts_spec flawed_rollouts
                sample_scenario SIM_AGENTS _SIM_AGENTS_SUBMISSION_CONFIG
                eq_refl) as (_ & _ & _ & Hfirst).
    apply (Hfirst ltac:(done) eq_refl [sample_scene] short_scene
             (partial_scene :: replicate 29 sample_scene)).
    + reflexivity.
    + constructor; [by vm_compute | constructor].
    + by vm_compute.
Defined.

(** ** Subscripts of [track.states] *)

Lemma get_sim_agent_ids_loop_short config remaining object_ids :
  0 <= current_time_index config ->
  Exists (λ track, len (states track) <= current_time_index config)
    remaining ->
  get_sim_agent_ids_loop config remaining object_ids
  = Err (IndexError TrackStates).
Proof.
  intros Hnow Hshort.
  destruct (get_sim_agent_ids_loop config remaining object_ids)
    as [ids|e] eqn:Hloop.
  - apply get_sim_agent_ids_loop_steps in Hloop; [|done].
    apply Exists_exists in Hshort as (track & Hin & Hlen).
    apply (proj1 (Forall_forall _ _) Hloop) in Hin.
    unfold has_step in Hin. lia.
  - f_equal. by eapply get_sim_agent_ids_loop_Err.
Qed.

Lemma get_evaluation_sim_agent_ids_Err scenario e :
  get_evaluation_sim_agent_ids scenario (Tag SIM_AGENTS) = Err e ->
  e = IndexError ScenarioTracks.
Proof.
  cbn. destruct (getitem _ _ _) as [sdc|e'] eqn:Hsdc; cbn.
  - destruct (get_evaluation_sim_agent_ids_loop _ _ _) as [s|e'] eqn:Hloop;
      cbn; [done|].
    intros [= <-]. by eapply get_evaluation_sim_agent_ids_loop_Err.
  - intros [= <-]. by eapply getitem_Err.
Qed.

(** C10.  On a scenario whose tracks all have more than
    [current_time_index] states, [is_valid_sim_agent] answers for every
    track, [get_sim_agent_ids] returns, and neither
    [get_evaluation_sim_agent_ids] nor the two validators raise the
    [IndexError] of [track.states]: the validators raise nothing but their
    [ValueError]s.  On a track with no state at [current_time_index],
    [is_valid_sim_agent] raises that [IndexError], and so does
    [get_sim_agent_ids] on a scenario with such a track. *)
Theorem track_states_subscript_in_range
    (scenario : Scenario) (c : ChallengeType) (config : SubmissionConfig) :
  get_submission_config (Tag c) = Ok config ->
  Forall (λ track, current_time_index config < len (states track))
    (tracks scenario) ->
  (∀ track, track ∈ tracks scenario ->
            ∃ b, is_valid_sim_agent config track = Ok b)
  /\ (∃ ids, get_sim_agent_ids scenario (Tag c) = Ok ids)
  /\ get_evaluation_sim_agent_ids scenario (Tag c)
     ≠ Err (IndexError TrackStates)
  /\ (∀ joint_scene e,
        validate_joint_scene joint_scene scenario (Tag c) = Err e ->
        ∃ m, e = ValueError m)
  /\ (∀ scenario_rollouts e,
        validate_scenario_rollouts scenario_rollouts scenario (Tag c)
        = Err e ->
        ∃ m, e = ValueError m)
  /\ (∀ track,
        len (states track) <= current_time_index config ->
        is_valid_sim_agent config track = Err (IndexError TrackStates))
  /\ (∀ scenario',
        Exists (λ track, len (states track) <= current_time_index config)
          (tracks scenario') ->
        get_sim_agent_ids scenario' (Tag c) = Err (IndexError TrackStates)).
Proof.
  intros Hconfig Hlong.
  destruct (get_submission_config_Tag c config Hconfig) as (Hnow & _).
  assert (Hsteps : Forall (has_step (current_time_index config))
                     (tracks scenario)).
  { eapply Forall_impl; [exact Hlong|]. intros track Hlen.
    cbn beta in Hlen. unfold has_step. lia. }
  assert (Hids : ∃ ids, get_sim_agent_ids scenario (Tag c) = Ok ids).
  { eexists. unfold get_sim_agent_ids. rewrite Hconfig. cbn.
    by apply get_sim_agent_ids_loop_Ok. }
  destruct Hids as [ids Hids].
  assert (Hscene : ∀ joint_scene e,
    validate_joint_scene joint_scene scenario (Tag c) = Err e ->
    ∃ m, e = ValueError m).
  { intros joint_scene e Hfails.
    destruct (validate_joint_scene_Err _ _ _ _ _ Hconfig Hids e Hfails)
      as (m & -> & _).
    by exists m. }
  repeat apply conj.
  - intros track Hin. eexists. apply is_valid_sim_agent_Ok.
    by apply (proj1 (Forall_forall _ _) Hsteps).
  - by exists ids.
  - destruct c.
    + intros Hfails%get_evaluation_sim_agent_ids_Err. done.
    + change (get_evaluation_sim_agent_ids scenario (Tag SCENARIO_GEN))
        with (get_sim_agent_ids scenario (Tag SCENARIO_GEN)).
      by rewrite Hids.
  - exact Hscene.
  - intros scenario_rollouts e.
    rewrite (validate_scenario_rollouts_unfold _ _ _ _ Hconfig).
    destruct (scenario_id scenario_rollouts); [|intros [= <-]; by eexists].
    destruct (_ =? _); [|intros [= <-]; by eexists].
    intros (joint_scene & _ & Hfails)%validate_scenario_rollouts_loop_Err.
    by eapply Hscene.
  - intros track Hshort. apply is_valid_sim_agent_short; [lia | done].
  - intros scenario' Hshort. unfold get_sim_agent_ids.
    rewrite Hconfig. cbn. apply get_sim_agent_ids_loop_short; [lia | done].
Qed.

(** Every track of the sample scenario has 11 states; [short_track] has
    10. *)
Lemma track_states_subscript_in_range_witness :
  (∃ ids, get_sim_agent_ids sample_scenario (Tag SIM_AGENTS) = Ok ids)
  /\ is_valid_sim_agent _SIM_AGENTS_SUBMISSION_CONFIG short_track
     = Err (IndexError TrackStates)
  /\ get_sim_agent_ids truncated_scenario (Tag SIM_AGENTS)
     = Err (IndexError TrackStates).
Proof.
  destruct (track_states_subscript_in_range sample_scenario SIM_AGENTS
              _SIM_AGENTS_SUBMISSION_CONFIG eq_refl)
    as (_ & Hids & _ & _ & _ & Hshort & Htruncated).
  - repeat constructor.
  - split; [exact Hids|]. split.
    + apply Hshort. by vm_compute.
    + apply Htruncated. apply Exists_cons_tl, Exists_cons_hd. by vm_compute.
Defined.

(** ** Determinism *)

Lemma observed_no_set {A} (r : result A) : observed (no_set r) = r.
Proof. by destruct r. Qed.

Lemma observed_bind {A B} (o : outcome A) (k : A -> outcome B) :
  observed (o ≫= k) = observed o ≫= (λ a, observed (k a)).
Proof. by destruct o. Qed.

Lemma list_to_set_order (order : gset Z -> list Z) (s : gset Z) :
  enumerates order -> list_to_set (order s) = s.
Proof.
  intros Horder. apply set_eq. intros x.
  by rewrite elem_of_list_to_set, (Horder s), elem_of_elements.
Qed.

Lemma get_evaluation_sim_agent_ids_run_observed order scenario challenge_type :
  enumerates order ->
  observed (get_evaluation_sim_agent_ids_run order scenario challenge_type)
  = get_evaluation_sim_agent_ids scenario challenge_type.
Proof.
  intros Horder. destruct challenge_type as [[]|repr]; [| |done].
  - cbn. destruct (getitem _ _ _) as [sdc|]; cbn; [|done].
    destruct (get_evaluation_sim_agent_ids_loop _ _ _) as [object_ids|];
      cbn; [|done].
    f_equal. by apply merge_sort_enumeration.
  - apply observed_no_set.
Qed.

Lemma validate_joint_scene_run_observed
    order joint_scene scenario challenge_type :
  enumerates order ->
  observed (validate_joint_scene_run order joint_scene scenario
              challenge_type)
  = validate_joint_scene joint_scene scenario challenge_type.
Proof.
  intros Horder. unfold validate_joint_scene_run, validate_joint_scene,
    get_sim_agent_ids_run.
  destruct (get_submission_config challenge_type) as [config|]; [|done].
  cbn -[get_sim_agent_ids].
  destruct (get_sim_agent_ids scenario challenge_type) as [ids|]; [|done].
  cbn.
  destruct (validate_joint_scene_loop _ _ _ _) as [seen|]; [|done]. cbn.
  case_bool_decide; [|done]. cbn.
  by rewrite list_to_set_order.
Qed.

Lemma validate_scenario_rollouts_loop_run_observed
    order scenes scenario challenge_type :
  enumerates order ->
  observed (validate_scenario_rollouts_loop_run order scenes scenario
              challenge_type)
  = validate_scenario_rollouts_loop scenes scenario challenge_type.
Proof.
  intros Horder. induction scenes as [|joint_scene rest IH]; [done|].
  cbn -[validate_joint_scene_run validate_joint_scene].
  rewrite observed_bind, validate_joint_scene_run_observed by done.
  destruct (validate_joint_scene joint_scene scenario challenge_type);
    [|done].
  apply IH.
Qed.

Lemma validate_scenario_rollouts_run_observed
    order scenario_rollouts scenario challenge_type :
  enumerates order ->
  observed (validate_scenario_rollouts_run order scenario_rollouts scenario
              challenge_type)
  = validate_scenario_rollouts scenario_rollouts scenario challenge_type.
Proof.
  intros Horder.
  unfold validate_scenario_rollouts_run, validate_scenario_rollouts.
  destruct (get_submission_config challenge_type) as [config|]; [|done].
  cbn. destruct (negb _); [done|]. destruct (negb _); [done|].
  by apply validate_scenario_rollouts_loop_run_observed.
Qed.

Lemma run_observed order op :
  enumerates order -> observed (run order op) = result_of op.
Proof.
  intros Horder.
  destruct op as [scenario challenge_type|scenario challenge_type
                  |joint_scene scenario challenge_type
                  |scenario_rollouts scenario challenge_type];
    unfold run, result_of; rewrite observed_bind.
  - unfold get_sim_agent_ids_run. by rewrite observed_no_set.
  - by rewrite get_evaluation_sim_agent_ids_run_observed.
  - by rewrite validate_joint_scene_run_observed.
  - by rewrite validate_scenario_rollouts_run_observed.
Qed.

(** The order in which a run iterates its sets does show: with two
    simulated agents missing, the message lists them in the order of the
    runtime. *)
Lemma message_lists_in_order :
  run elements (ValidateJointScene empty_scene sample_scenario
                  (Tag SIM_AGENTS))
  = Raises (RaisedMissingAgents [7; 3] [])
  /\ run sorted (ValidateJointScene empty_scene sample_scenario
                   (Tag SIM_AGENTS))
     = Raises (RaisedMissingAgents [3; 7] []).
Proof. split; by vm_compute. Qed.

(** C8.  Two runs of the same call of [get_sim_agent_ids],
    [get_evaluation_sim_agent_ids], [validate_joint_scene] or
    [validate_scenario_rollouts], whatever the order in which each of them
    iterates its sets, are observed alike: they return the same ids, or
    raise the same kind of error with the same payload (field name and
    lengths, offending id, set of missing ids and list of simulated ids,
    actual and expected counts).  What is observed is the result of the
    functions [get_sim_agent_ids], ..., [validate_scenario_rollouts]
    above. *)
Theorem runs_observed_alike
    (order order' : gset Z -> list Z) (op : operation) :
  enumerates order -> enumerates order' ->
  observed (run order op) = observed (run order' op)
  /\ observed (run order op) = result_of op.
Proof.
  intros Horder Horder'. split; [|by apply run_observed].
  by rewrite !run_observed.
Qed.

(** Two runs of the validation of an empty scene, one iterating its sets
    in the order of [elements], one in ascending order: the messages list
    the missing agents 7 and 3 in different orders, the error observed is
    the same. *)
Lemma runs_observed_alike_witness :
  observed (run elements (ValidateJointScene empty_scene sample_scenario
                            (Tag SIM_AGENTS)))
  = observed (run sorted (ValidateJointScene empty_scene sample_scenario
                            (Tag SIM_AGENTS))).
Proof.
  refine (proj1 (runs_observed_alike elements sorted
                   (ValidateJointScene empty_scene sample_scenario
                      (Tag SIM_AGENTS)) _ _)).
  - intros s. reflexivity.
  - intros s. apply merge_sort_Permutation.
Defined.

(** ** What the operations raise *)

Lemma is_valid_sim_agent_Err_stops config track e :
  0 <= current_time_index config ->
  is_valid_sim_agent config track = Err e ->
  stops_before (current_time_index config) track.
Proof.
  intros Hnow. unfold is_valid_sim_agent.
  rewrite getitem_nonneg by done.
  destruct (states track !! _) eqn:Hlookup; [done|]. intros _.
  apply lookup_ge_None in Hlookup. unfold stops_before, len. lia.
Qed.

Lemma get_sim_agent_ids_loop_Err_stops config remaining object_ids e :
  0 <= current_time_index config ->
  get_sim_agent_ids_loop config remaining object_ids = Err e ->
  Exists (stops_before (current_time_index config)) remaining.
Proof.
  intros Hnow. revert object_ids.
  induction remaining as [|track rest IH]; intros object_ids; cbn; [done|].
  destruct (is_valid_sim_agent config track) as [b|e'] eqn:E; cbn.
  - intros Hrest. apply Exists_cons_tl. destruct b; eapply IH, Hrest.
  - intros _. apply Exists_cons_hd.
    by eapply is_valid_sim_agent_Err_stops.
Qed.

Lemma get_sim_agent_ids_Err scenario (c : ChallengeType) e :
  get_sim_agent_ids scenario (Tag c) = Err e ->
  e = IndexError TrackStates /\ Exists (stops_before 10) (tracks scenario).
Proof.
  unfold get_sim_agent_ids.
  destruct (get_submission_config (Tag c)) as [config|] eqn:Hconfig;
    [|by destruct c].
  destruct (get_submission_config_Tag c config Hconfig) as (Hnow & _).
  cbn. intros Hloop. split; [by eapply get_sim_agent_ids_loop_Err|].
  rewrite <- Hnow. eapply get_sim_agent_ids_loop_Err_stops; [lia | done].
Qed.

Lemma get_sim_agent_ids_stops scenario (c : ChallengeType) :
  Exists (stops_before 10) (tracks scenario) ->
  get_sim_agent_ids scenario (Tag c) = Err (IndexError TrackStates).
Proof.
  intros Hstops. unfold get_sim_agent_ids.
  destruct c; cbn; by apply get_sim_agent_ids_loop_short.
Qed.

Lemma validate_joint_scene_sim_Err joint_scene scenario (c : ChallengeType) e :
  get_sim_agent_ids scenario (Tag c) = Err e ->
  validate_joint_scene joint_scene scenario (Tag c) = Err e.
Proof.
  intros Hsim. unfold validate_joint_scene.
  destruct c; cbn -[get_sim_agent_ids]; by rewrite Hsim.
Qed.

Lemma validate_joint_scene_raises joint_scene scenario challenge_type e :
  validate_joint_scene joint_scene scenario challenge_type = Err e ->
  (∃ m, e = ValueError m) \/
  (e = IndexError TrackStates /\ Exists (stops_before 10) (tracks scenario)).
Proof.
  destruct challenge_type as [c|repr]; [|intros [= <-]; left; by eexists].
  destruct (get_sim_agent_ids scenario (Tag c)) as [ids|e'] eqn:Hsim.
  - assert (Hconfig : ∃ config, get_submission_config (Tag c) = Ok config)
      by (destruct c; by eexists).
    destruct Hconfig as [config Hconfig].
    intros (m & -> & _)%(validate_joint_scene_Err _ _ _ _ _ Hconfig Hsim).
    left. by exists m.
  - rewrite (validate_joint_scene_sim_Err _ _ _ _ Hsim). intros [= <-].
    right. by apply get_sim_agent_ids_Err in Hsim.
Qed.

(** X1.  The validators raise a [ValueError], or the [IndexError] of
    [track.states]: the latter only on a scenario with a track that has no
    state at step 10, and, for [validate_scenario_rollouts], only once
    [scenario_id] and the number of joint scenes have been accepted.  On
    such a scenario every joint scene is rejected with that [IndexError],
    whatever it holds, and so are rollouts that have a [scenario_id] and
    32 joint scenes. *)
Theorem validators_raise (scenario : Scenario) :
  (∀ joint_scene challenge_type e,
     validate_joint_scene joint_scene scenario challenge_type = Err e ->
     (∃ m, e = ValueError m) \/
     (e = IndexError TrackStates /\
      Exists (stops_before 10) (tracks scenario)))
  /\ (∀ scenario_rollouts challenge_type e,
        validate_scenario_rollouts scenario_rollouts scenario challenge_type
        = Err e ->
        (∃ m, e = ValueError m) \/
        (e = IndexError TrackStates /\
         Exists (stops_before 10) (tracks scenario) /\
         scenario_id scenario_rollouts ≠ None /\
         len (joint_scenes scenario_rollouts) = 32))
  /\ (Exists (stops_before 10) (tracks scenario) ->
      ∀ (c : ChallengeType),
        (∀ joint_scene,
           validate_joint_scene joint_scene scenario (Tag c)
           = Err (IndexError TrackStates))
        /\ (∀ scenario_rollouts,
              scenario_id scenario_rollouts ≠ None ->
              len (joint_scenes scenario_rollouts) = 32 ->
              validate_scenario_rollouts scenario_rollouts scenario (Tag c)
              = Err (IndexError TrackStates))).
Proof.
  split; [|split].
  - intros joint_scene challenge_type e. apply validate_joint_scene_raises.
  - intros scenario_rollouts [c|repr] e; [|intros [= <-]; left; by eexists].
    assert (Hconfig : ∃ config, get_submission_config (Tag c) = Ok config)
      by (destruct c; by eexists).
    destruct Hconfig as [config Hconfig].
    destruct (get_submission_config_Tag c config Hconfig) as (_ & Hcount & _).
    rewrite (validate_scenario_rollouts_unfold _ _ _ _ Hconfig).
    destruct (scenario_id scenario_rollouts) as [name|];
      [|intros [= <-]; left; by eexists].
    destruct (Z.eqb_spec (len (joint_scenes scenario_rollouts))
                (n_rollouts config)) as [Hlen|Hlen];
      [|intros [= <-]; left; by eexists].
    intros (joint_scene & _ & Hfails)%validate_scenario_rollouts_loop_Err.
    apply validate_joint_scene_raises in Hfails as [?|[-> Hstops]];
      [by left|].
    right. repeat split; [done..|]. by rewrite Hlen.
  - intros Hstops c.
    assert (Hscene : ∀ joint_scene,
      validate_joint_scene joint_scene scenario (Tag c)
      = Err (IndexError TrackStates)).
    { intros joint_scene. apply validate_joint_scene_sim_Err.
      by apply get_sim_agent_ids_stops. }
    split; [done|]. intros scenario_rollouts Hname Hlen.
    assert (Hconfig : ∃ config, get_submission_config (Tag c) = Ok config)
      by (destruct c; by eexists).
    destruct Hconfig as [config Hconfig].
    destruct (get_submission_config_Tag c config Hconfig) as (_ & Hcount & _).
    rewrite (validate_scenario_rollouts_unfold _ _ _ _ Hconfig).
    destruct (scenario_id scenario_rollouts) as [name|]; [|done].
    rewrite Hcount, Hlen. cbn.
    destruct (joint_scenes scenario_rollouts) as [|joint_scene rest];
      [done|].
    cbn -[validate_joint_scene]. by rewrite Hscene.
Qed.

(** On the scenario with a truncated track, a well-formed scene and the
    sample rollouts are rejected with the [IndexError]. *)
Lemma validators_raise_witness :
  validate_joint_scene sample_scene truncated_scenario (Tag SIM_AGENTS)
  = Err (IndexError TrackStates)
  /\ validate_scenario_rollouts sample_rollouts truncated_scenario
       (Tag SCENARIO_GEN)
     = Err (IndexError TrackStates).
Proof.
  destruct (validators_raise truncated_scenario) as (_ & _ & Hstops).
  assert (Hshort : Exists (stops_before 10) (tracks truncated_scenario))
    by (apply Exists_cons_tl, Exists_cons_hd; by vm_compute).
  split.
  - apply (Hstops Hshort SIM_AGENTS).
  - apply (Hstops Hshort SCENARIO_GEN); [done | reflexivity].
Defined.

(** ** Subscripts of [scenario.tracks] *)

Lemma getitem_cases {A} (c : container) (l : list A) (i : Z) :
  (in_range l i /\ ∃ a, getitem c l i = Ok a) \/
  (¬ in_range l i /\ getitem c l i = Err (IndexError c)).
Proof.
  unfold getitem, in_range, raise.
  destruct (Z.ltb_spec i 0) as [Hneg|Hpos].
  - destruct (Z.ltb_spec (len l + i) 0) as [Hlow|Hin]; [right; split; [lia|done]|].
    destruct (lookup_lt_is_Some_2 l (Z.to_nat (len l + i))) as [a ->];
      [unfold len in *; lia|].
    left. split; [lia | by exists a].
  - destruct (Z.ltb_spec i 0) as [?|_]; [lia|].
    destruct (l !! Z.to_nat i) as [a|] eqn:Hlookup.
    + apply lookup_lt_Some in Hlookup. left.
      split; [unfold len; lia | by exists a].
    + apply lookup_ge_None in Hlookup. right.
      split; [unfold len; lia | done].
Qed.

Lemma getitem_Ok_in_range {A} (c : container) (l : list A) (i : Z) (a : A) :
  getitem c l i = Ok a -> in_range l i.
Proof.
  intros Hlookup.
  destruct (getitem_cases c l i) as [[Hin _]|[_ Hfails]]; [done|].
  by rewrite Hfails in Hlookup.
Qed.

Lemma refer_to_in_range scenario entries predicted :
  refer_to scenario entries predicted ->
  Forall (λ entry, in_range (tracks scenario) (track_index entry)) entries.
Proof.
  induction 1 as [|entry track rest predicted Hlookup _ IH]; constructor;
    [by eapply getitem_Ok_in_range | done].
Qed.

Lemma in_range_refer_to scenario entries :
  Forall (λ entry, in_range (tracks scenario) (track_index entry)) entries ->
  ∃ predicted, refer_to scenario entries predicted.
Proof.
  induction 1 as [|entry rest Hin _ [predicted IH]];
    [exists []; constructor|].
  destruct (getitem_cases ScenarioTracks (tracks scenario)
              (track_index entry)) as [[_ [track Hlookup]]|[Hout _]];
    [|done].
  exists (track :: predicted). by constructor.
Qed.

(** X2.  For the Sim Agents challenge [get_evaluation_sim_agent_ids]
    returns exactly when [sdc_track_index] and every [track_index] of
    [tracks_to_predict] is a subscript of [scenario.tracks], from
    [-len(tracks)] up to [len(tracks) - 1]; otherwise it raises the
    [IndexError] of [scenario.tracks], and nothing else. *)
Theorem get_evaluation_sim_agent_ids_bounds (scenario : Scenario) :
  let subscripts_ok :=
    in_range (tracks scenario) (sdc_track_index scenario) /\
    Forall (λ entry, in_range (tracks scenario) (track_index entry))
      (tracks_to_predict scenario) in
  (subscripts_ok /\
   ∃ ids, get_evaluation_sim_agent_ids scenario (Tag SIM_AGENTS) = Ok ids)
  \/ (¬ subscripts_ok /\
      get_evaluation_sim_agent_ids scenario (Tag SIM_AGENTS)
      = Err (IndexError ScenarioTracks)).
Proof.
  intros subscripts_ok.
  destruct (get_evaluation_sim_agent_ids scenario (Tag SIM_AGENTS))
    as [ids|e] eqn:Hresult.
  - left. split; [|by exists ids].
    apply get_evaluation_sim_agent_ids_Ok_inv in Hresult
      as (sdc & predicted & Hsdc & Hrefer & _).
    split; [by eapply getitem_Ok_in_range | by eapply refer_to_in_range].
  - right. split.
    + intros [Hsdc Hentries].
      destruct (getitem_cases ScenarioTracks (tracks scenario)
                  (sdc_track_index scenario))
        as [[_ [sdc Hlookup]]|[Hout _]]; [|done].
      destruct (in_range_refer_to scenario _ Hentries)
        as [predicted Hrefer].
      by rewrite (get_evaluation_sim_agent_ids_Ok scenario sdc predicted
                    Hlookup Hrefer) in Hresult.
    + f_equal. by apply (get_evaluation_sim_agent_ids_Err scenario).
Qed.

(** ** The evaluated ids and the states of the tracks *)

Lemma getitem_map {A B} (f : A -> B) (c : container) (l : list A) (i : Z) :
  getitem c (map f l) i
  = match getitem c l i with
    | Ok a => Ok (f a)
    | Err e => Err e
    end.
Proof.
  unfold getitem, len. rewrite length_map.
  destruct (_ <? 0); [done|].
  change (map f l) with (f <$> l). rewrite list_lookup_fmap.
  by destruct (l !! _).
Qed.

(** Two track lists with the same ids answer a subscript alike. *)
Lemma getitem_same_ids (c : container) (l l' : list Track) (i : Z) :
  map id l = map id l' ->
  match getitem c l i, getitem c l' i with
  | Ok track, Ok track' => id track = id track'
  | Err e, Err e' => e = e'
  | _, _ => False
  end.
Proof.
  intros Hids. pose proof (getitem_map id c l i) as Hl.
  rewrite Hids, getitem_map in Hl.
  destruct (getitem c l i), (getitem c l' i); congruence.
Qed.

Lemma get_evaluation_sim_agent_ids_loop_same_ids
    scenario scenario' remaining (object_ids : gset Z) :
  map id (tracks scenario) = map id (tracks scenario') ->
  get_evaluation_sim_agent_ids_loop scenario remaining object_ids
  = get_evaluation_sim_agent_ids_loop scenario' remaining object_ids.
Proof.
  intros Hids. revert object_ids.
  induction remaining as [|entry rest IH]; intros object_ids; cbn; [done|].
  pose proof (getitem_same_ids ScenarioTracks _ _ (track_index entry) Hids)
    as Hsame.
  destruct (getitem _ (tracks scenario) _),
    (getitem _ (tracks scenario') _); cbn; try done.
  - rewrite Hsame. apply IH.
  - by rewrite Hsame.
Qed.

(** X3.  For the Sim Agents challenge the evaluated ids do not depend on
    the states of the tracks: replacing the tracks by tracks with the same
    ids in the same order, whatever their states, leaves the result or the
    error unchanged. *)
Theorem get_evaluation_sim_agent_ids_ignores_states
    (scenario : Scenario) (tracks' : list Track) :
  map id tracks' = map id (tracks scenario) ->
  get_evaluation_sim_agent_ids (with_tracks tracks' scenario)
    (Tag SIM_AGENTS)
  = get_evaluation_sim_agent_ids scenario (Tag SIM_AGENTS).
Proof.
  intros Hids. cbn.
  pose proof (getitem_same_ids ScenarioTracks _ _
                (sdc_track_index scenario) Hids) as Hsame.
  destruct (getitem _ tracks' _), (getitem _ (tracks scenario) _);
    cbn; try done; [|by rewrite Hsame].
  rewrite Hsame.
  by rewrite (get_evaluation_sim_agent_ids_loop_same_ids
                (with_tracks tracks' scenario) scenario).
Qed.

(** With the states of the sample scenario dropped the evaluated ids are
    still returned, while the simulated ids no longer are. *)
Lemma get_evaluation_sim_agent_ids_ignores_states_witness :
  get_evaluation_sim_agent_ids (with_tracks stateless_tracks sample_scenario)
    (Tag SIM_AGENTS)
  = get_evaluation_sim_agent_ids sample_scenario (Tag SIM_AGENTS)
  /\ get_sim_agent_ids (with_tracks stateless_tracks sample_scenario)
       (Tag SIM_AGENTS)
     = Err (IndexError TrackStates).
Proof.
  split; [|reflexivity].
  apply (get_evaluation_sim_agent_ids_ignores_states sample_scenario
           stateless_tracks).
  reflexivity.
Defined.

(** ** How many ids are evaluated *)

Lemma sorted_length (s : gset Z) : length (sorted s) = size s.
Proof. unfold sorted. by rewrite merge_sort_Permutation. Qed.

Lemma size_list_to_set_le (l : list Z) :
  (size (list_to_set l : gset Z) <= length l)%nat.
Proof.
  induction l as [|x l IH]; cbn.
  - by rewrite size_empty.
  - rewrite size_union_alt, size_singleton.
    assert (size (list_to_set l ∖ {[ x ]} : gset Z)
            <= size (list_to_set l : gset Z))%nat
      by (apply subseteq_size, subseteq_difference_l; done).
    lia.
Qed.

(** X4.  The evaluated ids of the Sim Agents challenge are never empty,
    and there is at most one more of them than there are entries in
    [tracks_to_predict]. *)
Theorem get_evaluation_sim_agent_ids_length
    (scenario : Scenario) (ids : list Z) :
  get_evaluation_sim_agent_ids scenario (Tag SIM_AGENTS) = Ok ids ->
  (1 <= length ids <= 1 + length (tracks_to_predict scenario))%nat.
Proof.
  intros (sdc & predicted & _ & Hrefer & ->)
    %get_evaluation_sim_agent_ids_Ok_inv.
  rewrite sorted_length, (Forall2_length _ _ _ Hrefer).
  rewrite size_union_alt, size_singleton.
  assert (size (list_to_set (map id predicted) ∖ {[ id sdc ]} : gset Z)
          <= size (list_to_set (map id predicted) : gset Z))%nat
    by (apply subseteq_size, subseteq_difference_l; done).
  pose proof (size_list_to_set_le (map id predicted)) as Hle.
  rewrite length_map in Hle. lia.
Qed.

(** The sample scenario has one entry to predict, for a track other than
    the autonomous vehicle's. *)
Lemma get_evaluation_sim_agent_ids_length_witness :
  (1 <= length [3; 7] <= 1 + 1)%nat.
Proof.
  apply (get_evaluation_sim_agent_ids_length sample_scenario [3; 7]).
  reflexivity.
Defined.

(** ** What a validated scene holds *)

(** X5.  A joint scene that validates holds exactly the simulated agents:
    the set of its object ids is the set of the simulated ids, and when
    the simulated ids are distinct it has at least as many trajectories as
    there are simulated ids. *)
Theorem validate_joint_scene_Ok_agents
    (joint_scene : JointScene) (scenario : Scenario) (c : ChallengeType) :
  validate_joint_scene joint_scene scenario (Tag c) = Ok () ->
  ∃ required_ids,
    get_sim_agent_ids scenario (Tag c) = Ok required_ids /\
    (list_to_set (map object_id (simulated_trajectories joint_scene))
     : gset Z)
    = list_to_set required_ids /\
    (NoDup required_ids ->
     (length required_ids
      <= length (simulated_trajectories joint_scene))%nat).
Proof.
  intros Hok.
  assert (Hconfig : ∃ config, get_submission_config (Tag c) = Ok config)
    by (destruct c; by eexists).
  destruct Hconfig as [config Hconfig].
  destruct (get_sim_agent_ids scenario (Tag c)) as [ids|e] eqn:Hsim;
    [|by rewrite (validate_joint_scene_sim_Err _ _ _ _ Hsim) in Hok].
  destruct (proj1 (validate_joint_scene_Ok_iff _ _ _ _ _ Hconfig Hsim) Hok)
    as [Hall Hcovered].
  assert (Hsame : ∀ x,
    x ∈ map object_id (simulated_trajectories joint_scene) <-> x ∈ ids).
  { intros x. split.
    - intros (t & <- & Ht)%list_elem_of_In%in_map_iff.
      apply list_elem_of_In in Ht.
      by apply (proj1 (Forall_forall _ _) Hall) in Ht as [_ ?].
    - intros (t & Ht & <-)%Hcovered.
      apply list_elem_of_In, in_map. by apply list_elem_of_In. }
  exists ids. split; [done|]. split.
  - apply set_eq. intros x. by rewrite !elem_of_list_to_set.
  - intros Hnodup.
    rewrite <- (length_map object_id (simulated_trajectories joint_scene)).
    apply submseteq_length, NoDup_submseteq; [done|].
    intros x. apply Hsame.
Qed.

(** The scene with agent 7 twice holds the two simulated agents in three
    trajectories. *)
Lemma validate_joint_scene_Ok_agents_witness :
  ∃ required_ids,
    get_sim_agent_ids sample_scenario (Tag SIM_AGENTS) = Ok required_ids /\
    (list_to_set
       (map object_id (simulated_trajectories duplicate_scene)) : gset Z)
    = list_to_set required_ids /\
    (NoDup required_ids ->
     (length required_ids
      <= length (simulated_trajectories duplicate_scene))%nat).
Proof.
  apply (validate_joint_scene_Ok_agents duplicate_scene sample_scenario
           SIM_AGENTS).
  by vm_compute.
Defined.

(** ** The order of trajectories and of joint scenes *)

Lemma covered_Permutation required_ids trajectories trajectories' :
  trajectories ≡ₚ trajectories' ->
  covered required_ids trajectories -> covered required_ids trajectories'.
Proof.
  intros Hperm Hcovered i Hi.
  destruct (Hcovered i Hi) as (t & Ht & Hid).
  exists t. split; [by rewrite <- Hperm | done].
Qed.

(** X6.  Whether a joint scene validates does not depend on the order of
    its trajectories. *)
Theorem validate_joint_scene_Permutation
    (trajectories trajectories' : list SimulatedTrajectory)
    (scenario : Scenario) (challenge_type : challenge_arg) :
  trajectories ≡ₚ trajectories' ->
  validate_joint_scene {| simulated_trajectories := trajectories |}
    scenario challenge_type = Ok ()
  <-> validate_joint_scene {| simulated_trajectories := trajectories' |}
        scenario challenge_type = Ok ().
Proof.
  intros Hperm. destruct challenge_type as [c|repr]; [|done].
  assert (Hconfig : ∃ config, get_submission_config (Tag c) = Ok config)
    by (destruct c; by eexists).
  destruct Hconfig as [config Hconfig].
  destruct (get_sim_agent_ids scenario (Tag c)) as [ids|e] eqn:Hsim;
    [|by rewrite !(validate_joint_scene_sim_Err _ _ _ _ Hsim)].
  rewrite !(validate_joint_scene_Ok_iff _ _ _ _ _ Hconfig Hsim). cbn.
  split; intros [Hall Hcovered].
  - split; [by rewrite <- Hperm | by eapply covered_Permutation].
  - split; [by rewrite Hperm|].
    eapply covered_Permutation; [symmetry; exact Hperm | done].
Qed.

(** The two trajectories of the sample scene, swapped. *)
Lemma validate_joint_scene_Permutation_witness :
  validate_joint_scene
    {| simulated_trajectories := [trajectory_of 3 80; trajectory_of 7 80] |}
    sample_scenario (Tag SIM_AGENTS)
  = Ok ().
Proof.
  apply (validate_joint_scene_Permutation
           [trajectory_of 7 80; trajectory_of 3 80]
           [trajectory_of 3 80; trajectory_of 7 80]
           sample_scenario (Tag SIM_AGENTS)).
  - apply perm_swap.
  - by vm_compute.
Defined.

(** X7.  Whether rollouts validate depends neither on the order of the
    joint scenes nor on what the [scenario_id] is, only on its being
    set. *)
Theorem validate_scenario_rollouts_Permutation
    (name name' : string) (scenes scenes' : list JointScene)
    (scenario : Scenario) (challenge_type : challenge_arg) :
  scenes ≡ₚ scenes' ->
  validate_scenario_rollouts
    {| scenario_id := Some name; joint_scenes := scenes |}
    scenario challenge_type = Ok ()
  <-> validate_scenario_rollouts
        {| scenario_id := Some name'; joint_scenes := scenes' |}
        scenario challenge_type = Ok ().
Proof.
  intros Hperm. destruct challenge_type as [c|repr]; [|done].
  assert (Hconfig : ∃ config, get_submission_config (Tag c) = Ok config)
    by (destruct c; by eexists).
  destruct Hconfig as [config Hconfig].
  rewrite !(validate_scenario_rollouts_unfold _ _ _ _ Hconfig). cbn.
  unfold len. rewrite <- (Permutation_length Hperm).
  destruct (_ =? _); [|done].
  rewrite !validate_scenario_rollouts_loop_Ok_iff. by rewrite Hperm.
Qed.

(** The sample rollouts under another name, with a scene moved. *)
Lemma validate_scenario_rollouts_Permutation_witness :
  validate_scenario_rollouts
    {| scenario_id := Some "9c1e";
       joint_scenes := replicate 31 sample_scene ++ [sample_scene] |}
    sample_scenario (Tag SIM_AGENTS)
  = Ok ().
Proof.
  apply (validate_scenario_rollouts_Permutation "4f2a" "9c1e"
           (sample_scene :: replicate 31 sample_scene)
           (replicate 31 sample_scene ++ [sample_scene])
           sample_scenario (Tag SIM_AGENTS)).
  - apply Permutation_cons_append.
  - by vm_compute.
Defined.

(** ** A submission built from the simulated ids *)

Lemma trajectory_for_conforms n required_ids i :
  0 <= n -> i ∈ required_ids ->
  conforms n required_ids (trajectory_for n i).
Proof.
  intros Hn Hi. split; [|done].
  unfold well_shaped, trajectory_for, trajectory_of, len. cbn.
  rewrite length_replicate. lia.
Qed.

Lemma scene_for_conforms n required_ids ids :
  0 <= n -> (∀ i, i ∈ ids -> i ∈ required_ids) ->
  Forall (conforms n required_ids) (map (trajectory_for n) ids).
Proof.
  intros Hn Hsub. induction ids as [|i ids IH]; cbn; [constructor|].
  constructor.
  - apply trajectory_for_conforms; [done|]. apply Hsub. by left.
  - apply IH. intros j Hj. apply Hsub. by right.
Qed.

Lemma scene_for_covered n ids :
  covered ids (map (trajectory_for n) ids).
Proof.
  intros i Hi. exists (trajectory_for n i). split; [|done].
  apply list_elem_of_In, in_map. by apply list_elem_of_In.
Qed.

(** X8.  The submission built from the result of [get_sim_agent_ids]
    validates: the joint scene with one trajectory of
    [n_simulation_steps] steps per simulated id is accepted, and so are
    the rollouts made of [n_rollouts] copies of it under any
    [scenario_id]. *)
Theorem submission_for_sim_agent_ids_validates
    (scenario : Scenario) (c : ChallengeType) (config : SubmissionConfig)
    (ids : list Z) (name : string) :
  get_submission_config (Tag c) = Ok config ->
  get_sim_agent_ids scenario (Tag c) = Ok ids ->
  validate_joint_scene (scene_for (n_simulation_steps config) ids)
    scenario (Tag c) = Ok ()
  /\ validate_scenario_rollouts
       (rollouts_for name (n_rollouts config) (n_simulation_steps config)
          ids)
       scenario (Tag c) = Ok ().
Proof.
  intros Hconfig Hsim.
  destruct (get_submission_config_Tag c config Hconfig)
    as (_ & Hcount & Hsteps).
  assert (Hscene :
    validate_joint_scene (scene_for (n_simulation_steps config) ids)
      scenario (Tag c) = Ok ()).
  { apply (validate_joint_scene_Ok_iff _ _ _ _ _ Hconfig Hsim). cbn.
    split; [|apply scene_for_covered].
    apply scene_for_conforms; [lia | done]. }
  split; [done|].
  rewrite (validate_scenario_rollouts_unfold _ _ _ _ Hconfig). cbn.
  unfold len. rewrite length_replicate, Hcount. cbn.
  apply validate_scenario_rollouts_loop_Ok_iff.
  by apply Forall_replicate.
Qed.

(** For the sample scenario the submission holds agents 7 and 3. *)
Lemma submission_for_sim_agent_ids_validates_witness :
  validate_joint_scene (scene_for 80 [7; 3]) sample_scenario
    (Tag SIM_AGENTS) = Ok ()
  /\ validate_scenario_rollouts (rollouts_for "4f2a" 32 80 [7; 3])
       sample_scenario (Tag SIM_AGENTS) = Ok ().
Proof.
  apply (submission_for_sim_agent_ids_validates sample_scenario SIM_AGENTS
           _SIM_AGENTS_SUBMISSION_CONFIG [7; 3] "4f2a");
    reflexivity.
Defined.

(** ** One submission, two challenges *)

Lemma get_sim_agent_ids_loop_config config config' remaining object_ids :
  current_time_index config = current_time_index config' ->
  get_sim_agent_ids_loop config remaining object_ids
  = get_sim_agent_ids_loop config' remaining object_ids.
Proof.
  intros Hnow. revert object_ids.
  induction remaining as [|track rest IH]; intros object_ids; cbn; [done|].
  unfold is_valid_sim_agent. rewrite Hnow.
  destruct (getitem _ _ _) as [state|]; cbn; [|done].
  destruct (valid state); apply IH.
Qed.

Lemma get_sim_agent_ids_challenge scenario :
  get_sim_agent_ids scenario (Tag SCENARIO_GEN)
  = get_sim_agent_ids scenario (Tag SIM_AGENTS).
Proof.
  unfold get_sim_agent_ids. cbn.
  by apply get_sim_agent_ids_loop_config.
Qed.

Lemma covered_nil required_ids : covered required_ids [] -> required_ids = [].
Proof.
  destruct required_ids as [|i ids]; [done|]. intros Hcovered.
  destruct (Hcovered i) as (t & Ht & _); [by left|].
  by apply elem_of_nil in Ht.
Qed.

Lemma validate_joint_scene_both joint_scene scenario :
  validate_joint_scene joint_scene scenario (Tag SIM_AGENTS) = Ok () ->
  validate_joint_scene joint_scene scenario (Tag SCENARIO_GEN) = Ok () ->
  simulated_trajectories joint_scene = [] /\
  get_sim_agent_ids scenario (Tag SIM_AGENTS) = Ok [].
Proof.
  intros Hsim_agents Hscenario_gen.
  destruct (get_sim_agent_ids scenario (Tag SIM_AGENTS)) as [ids|e] eqn:Hsim;
    [|by rewrite (validate_joint_scene_sim_Err _ _ _ _ Hsim)
        in Hsim_agents].
  destruct (proj1 (validate_joint_scene_Ok_iff joint_scene scenario
                     SIM_AGENTS _ ids eq_refl Hsim) Hsim_agents)
    as [Hall80 Hcovered].
  assert (Hsim' : get_sim_agent_ids scenario (Tag SCENARIO_GEN) = Ok ids)
    by (by rewrite get_sim_agent_ids_challenge).
  destruct (proj1 (validate_joint_scene_Ok_iff joint_scene scenario
                     SCENARIO_GEN _ ids eq_refl Hsim') Hscenario_gen)
    as [Hall91 _].
  destruct (simulated_trajectories joint_scene) as [|t rest].
  - split; [done|]. by rewrite (covered_nil ids Hcovered).
  - apply Forall_cons in Hall80 as [[(Hx80 & _) _] _].
    apply Forall_cons in Hall91 as [[(Hx91 & _) _] _].
    cbn in Hx80, Hx91. lia.
Qed.

(** X9.  Rollouts that validate both with the default challenge type,
    which is Sim Agents, and for the Scenario Gen challenge hold no
    trajectory at all, and the scenario has no agent to simulate: for a
    scenario with a simulated agent no submission is valid for both. *)
Theorem validate_scenario_rollouts_both
    (scenario_rollouts : ScenarioRollouts) (scenario : Scenario) :
  validate_scenario_rollouts_default scenario_rollouts scenario = Ok () ->
  validate_scenario_rollouts scenario_rollouts scenario (Tag SCENARIO_GEN)
  = Ok () ->
  Forall (λ joint_scene, simulated_trajectories joint_scene = [])
    (joint_scenes scenario_rollouts)
  /\ get_sim_agent_ids scenario (Tag SIM_AGENTS) = Ok [].
Proof.
  unfold validate_scenario_rollouts_default.
  rewrite (validate_scenario_rollouts_unfold _ _ (Tag SIM_AGENTS)
             _SIM_AGENTS_SUBMISSION_CONFIG eq_refl).
  rewrite (validate_scenario_rollouts_unfold _ _ (Tag SCENARIO_GEN)
             _SCENARIO_GEN_SUBMISSION_CONFIG eq_refl).
  destruct (scenario_id scenario_rollouts) as [name|]; [|done].
  cbn [n_rollouts _SIM_AGENTS_SUBMISSION_CONFIG
         _SCENARIO_GEN_SUBMISSION_CONFIG].
  destruct (Z.eqb_spec (len (joint_scenes scenario_rollouts)) 32)
    as [Hlen|]; [|done].
  rewrite !validate_scenario_rollouts_loop_Ok_iff.
  intros Hsim_agents Hscenario_gen.
  assert (Hboth : Forall (λ joint_scene,
    simulated_trajectories joint_scene = [] /\
    get_sim_agent_ids scenario (Tag SIM_AGENTS) = Ok [])
    (joint_scenes scenario_rollouts)).
  { apply Forall_forall. intros joint_scene Hin.
    apply validate_joint_scene_both.
    - by apply (proj1 (Forall_forall _ _) Hsim_agents).
    - by apply (proj1 (Forall_forall _ _) Hscenario_gen). }
  split.
  - eapply Forall_impl; [exact Hboth|]. by intros joint_scene [? _].
  - destruct (joint_scenes scenario_rollouts) as [|joint_scene rest];
      [done|].
    by apply Forall_cons in Hboth as [[_ ?] _].
Qed.

(** With no agent to simulate, 32 empty joint scenes are valid for both
    challenges. *)
Lemma validate_scenario_rollouts_both_witness :
  Forall (λ joint_scene, simulated_trajectories joint_scene = [])
    (joint_scenes empty_rollouts)
  /\ get_sim_agent_ids agentless_scenario (Tag SIM_AGENTS) = Ok [].
Proof.
  apply (validate_scenario_rollouts_both empty_rollouts agentless_scenario);
    by vm_compute.
Defined.

(** ** What the validators read of the scenario *)

Lemma validate_joint_scene_same_sim
    joint_scene scenario scenario' challenge_type :
  get_sim_agent_ids scenario challenge_type
  = get_sim_agent_ids scenario' challenge_type ->
  validate_joint_scene joint_scene scenario challenge_type
  = validate_joint_scene joint_scene scenario' challenge_type.
Proof.
  intros Hsim. unfold validate_joint_scene.
  destruct (get_submission_config challenge_type) as [config|]; [|done].
  cbn -[get_sim_agent_ids]. by rewrite Hsim.
Qed.

Lemma validate_scenario_rollouts_loop_same_sim
    scenes scenario scenario' challenge_type :
  get_sim_agent_ids scenario challenge_type
  = get_sim_agent_ids scenario' challenge_type ->
  validate_scenario_rollouts_loop scenes scenario challenge_type
  = validate_scenario_rollouts_loop scenes scenario' challenge_type.
Proof.
  intros Hsim. induction scenes as [|joint_scene rest IH]; [done|].
  cbn -[validate_joint_scene].
  by rewrite (validate_joint_scene_same_sim _ _ scenario'), IH.
Qed.

Lemma validate_scenario_rollouts_same_sim
    scenario_rollouts scenario scenario' challenge_type :
  get_sim_agent_ids scenario challenge_type
  = get_sim_agent_ids scenario' challenge_type ->
  validate_scenario_rollouts scenario_rollouts scenario challenge_type
  = validate_scenario_rollouts scenario_rollouts scenario' challenge_type.
Proof.
  intros Hsim. unfold validate_scenario_rollouts.
  by rewrite (validate_scenario_rollouts_loop_same_sim _ _ scenario').
Qed.

Lemma filter_filter_same {A} (p : A -> bool) (l : list A) :
  List.filter p (List.filter p l) = List.filter p l.
Proof.
  induction l as [|a l IH]; cbn; [done|].
  destruct (p a) eqn:Hp; cbn; [|done]. by rewrite Hp, IH.
Qed.

Lemma Forall_filter_bool {A} (P : A -> Prop) (p : A -> bool) (l : list A) :
  Forall P l -> Forall P (List.filter p l).
Proof.
  induction 1 as [|a l Ha _ IH]; cbn; [constructor|].
  destruct (p a); [by constructor | done].
Qed.

(** X10.  On a scenario whose tracks all have a state at step 10, the
    tracks that are not valid at that step, [sdc_track_index] and
    [tracks_to_predict] have no bearing on validation: with those tracks
    removed and the two fields replaced, [get_sim_agent_ids] returns the
    same ids and both validators give the same outcome, whatever the
    submission. *)
Theorem validation_reads_valid_tracks
    (scenario : Scenario) (c : ChallengeType)
    (sdc_track_index' : Z) (tracks_to_predict' : list RequiredPrediction) :
  Forall (has_step 10) (tracks scenario) ->
  let scenario' :=
    {| tracks := List.filter (valid_at 10) (tracks scenario);
       sdc_track_index := sdc_track_index';
       tracks_to_predict := tracks_to_predict' |} in
  get_sim_agent_ids scenario' (Tag c) = get_sim_agent_ids scenario (Tag c)
  /\ (∀ joint_scene,
        validate_joint_scene joint_scene scenario' (Tag c)
        = validate_joint_scene joint_scene scenario (Tag c))
  /\ (∀ scenario_rollouts,
        validate_scenario_rollouts scenario_rollouts scenario' (Tag c)
        = validate_scenario_rollouts scenario_rollouts scenario (Tag c)).
Proof.
  intros Hsteps scenario'.
  assert (Hsim : get_sim_agent_ids scenario' (Tag c)
                 = get_sim_agent_ids scenario (Tag c)).
  { unfold get_sim_agent_ids.
    destruct (get_submission_config (Tag c)) as [config|] eqn:Hconfig;
      [|done].
    destruct (get_submission_config_Tag c config Hconfig) as (Hnow & _).
    cbn. rewrite !get_sim_agent_ids_loop_Ok; rewrite Hnow.
    - by rewrite filter_filter_same.
    - done.
    - by apply Forall_filter_bool. }
  split; [done|]. split.
  - intros joint_scene. by apply validate_joint_scene_same_sim.
  - intros scenario_rollouts. by apply validate_scenario_rollouts_same_sim.
Qed.

(** The third track of the sample scenario is not valid at step 10. *)
Lemma validation_reads_valid_tracks_witness :
  get_sim_agent_ids
    {| tracks := [track_of 7 true; track_of 3 true];
       sdc_track_index := 1;
       tracks_to_predict := [] |}
    (Tag SIM_AGENTS)
  = get_sim_agent_ids sample_scenario (Tag SIM_AGENTS).
Proof.
  refine (proj1 (validation_reads_valid_tracks sample_scenario SIM_AGENTS
                   1 [] _)).
  repeat constructor; vm_compute; congruence.
Defined.

(** ** When the evaluated agents are simulated *)

Lemma NoDup_map_inj {A B} (f : A -> B) (l : list A) (x y : A) :
  NoDup (map f l) -> x ∈ l -> y ∈ l -> f x = f y -> x = y.
Proof.
  induction l as [|a l IH]; cbn; [by intros _ ?%elem_of_nil|].
  rewrite NoDup_cons. intros [Hnotin Hnodup] Hx Hy Heq.
  apply elem_of_cons in Hx as [->|Hx]; apply elem_of_cons in Hy as [->|Hy].
  - done.
  - destruct Hnotin. rewrite Heq. apply list_elem_of_In, in_map.
    by apply list_elem_of_In.
  - destruct Hnotin. rewrite <- Heq. apply list_elem_of_In, in_map.
    by apply list_elem_of_In.
  - by apply IH.
Qed.

Lemma elem_of_simulated_inv scenario track :
  NoDup (map id (tracks scenario)) -> track ∈ tracks scenario ->
  id track ∈ map id (List.filter (valid_at 10) (tracks scenario)) ->
  valid_at 10 track = true.
Proof.
  intros Hnodup Hin (track' & Hid & Hfilter)%list_elem_of_In%in_map_iff.
  apply filter_In in Hfilter as [Hin' Hvalid].
  apply list_elem_of_In in Hin'.
  by rewrite <- (NoDup_map_inj id _ track' track Hnodup Hin' Hin Hid).
Qed.

(** X11.  On a scenario with distinct track ids, the evaluated ids of the
    Sim Agents challenge are all simulated ids exactly when the track at
    [sdc_track_index] and every track [tracks_to_predict] refers to are
    valid at step 10. *)
Theorem evaluated_simulated_iff
    (scenario : Scenario) (evaluated simulated : list Z) (sdc : Track)
    (predicted : list Track) :
  get_evaluation_sim_agent_ids scenario (Tag SIM_AGENTS) = Ok evaluated ->
  get_sim_agent_ids scenario (Tag SIM_AGENTS) = Ok simulated ->
  getitem ScenarioTracks (tracks scenario) (sdc_track_index scenario)
  = Ok sdc ->
  refer_to scenario (tracks_to_predict scenario) predicted ->
  NoDup (map id (tracks scenario)) ->
  evaluated ⊆ simulated <->
  valid_at 10 sdc = true /\
  Forall (λ track, valid_at 10 track = true) predicted.
Proof.
  intros Hevaluated Hsimulated Hsdc Hrefer Hnodup.
  rewrite (get_evaluation_sim_agent_ids_Ok _ sdc predicted Hsdc Hrefer)
    in Hevaluated.
  injection Hevaluated as <-.
  apply get_sim_agent_ids_Ok_inv in Hsimulated as [_ ->].
  split.
  - intros Hsub. split.
    + apply (elem_of_simulated_inv scenario); [done| |].
      * by eapply getitem_elem_of.
      * apply Hsub, elem_of_evaluated. by left.
    + apply Forall_forall. intros track Hin.
      apply (elem_of_simulated_inv scenario); [done| |].
      * by eapply refer_to_elem_of.
      * apply Hsub, elem_of_evaluated. right. by exists track.
  - intros [Hsdc_valid Hpredicted_valid] x
      [->|(track & Hin & <-)]%elem_of_evaluated.
    + apply elem_of_simulated; [by eapply getitem_elem_of | done].
    + apply elem_of_simulated; [by eapply refer_to_elem_of|].
      by apply (proj1 (Forall_forall _ _) Hpredicted_valid).
Qed.

(** In [stale_prediction_scenario] the track to be predicted is not valid
    at step 10, and its id is not simulated. *)
Lemma evaluated_simulated_iff_witness :
  [5; 7] ⊆ [7; 3] <->
  valid_at 10 (track_of 7 true) = true /\
  Forall (λ track, valid_at 10 track = true) [track_of 5 false].
Proof.
  apply (evaluated_simulated_iff stale_prediction_scenario [5; 7] [7; 3]
           (track_of 7 true) [track_of 5 false]);
    try reflexivity.
  - repeat constructor.
  - apply (bool_decide_unpack _). by vm_compute.
Defined.

(** ** Submitting the evaluated agents only *)

Lemma map_object_id_trajectory_for n ids :
  map object_id (map (trajectory_for n) ids) = ids.
Proof. induction ids as [|i ids IH]; cbn; [done|]. by rewrite IH. Qed.

(** X12.  For the Sim Agents challenge a joint scene holding a well-formed
    trajectory for each evaluated agent and for no other agent is
    rejected as soon as some simulated agent is not evaluated: the error
    names the simulated ids that are not evaluated. *)
Theorem evaluated_agents_only_rejected
    (scenario : Scenario) (evaluated simulated : list Z) (x : Z) :
  get_evaluation_sim_agent_ids scenario (Tag SIM_AGENTS) = Ok evaluated ->
  get_sim_agent_ids scenario (Tag SIM_AGENTS) = Ok simulated ->
  evaluated ⊆ simulated ->
  x ∈ simulated -> x ∉ evaluated ->
  validate_joint_scene (scene_for 80 evaluated) scenario (Tag SIM_AGENTS)
  = Err (ValueError
           (MissingAgents (list_to_set simulated ∖ list_to_set evaluated)
              evaluated)).
Proof.
  intros _ Hsimulated Hsub Hx Hnot.
  rewrite (validate_joint_scene_missing _ _ SIM_AGENTS
             _SIM_AGENTS_SUBMISSION_CONFIG simulated eq_refl Hsimulated).
  - cbn. by rewrite map_object_id_trajectory_for.
  - cbn. by apply scene_for_conforms.
  - cbn. intros Hcovered. apply Hnot.
    destruct (Hcovered x Hx) as (t & Ht & <-).
    apply list_elem_of_In, (in_map object_id) in Ht.
    rewrite map_object_id_trajectory_for in Ht. by apply list_elem_of_In.
Qed.

(** A scenario whose second track is simulated but neither the autonomous
    vehicle nor to be predicted. *)
Lemma evaluated_agents_only_rejected_witness :
  validate_joint_scene (scene_for 80 [7])
    (with_tracks [track_of 7 true; track_of 3 true] agentless_scenario)
    (Tag SIM_AGENTS)
  = Err (ValueError
           (MissingAgents (list_to_set [7; 3] ∖ list_to_set [7]) [7])).
Proof.
  apply (evaluated_agents_only_rejected
           (with_tracks [track_of 7 true; track_of 3 true]
              agentless_scenario)
           [7] [7; 3] 3); try reflexivity.
  - intros i [->|[]%elem_of_nil]%elem_of_cons. by left.
  - by right; left.
  - by intros [?|[]%elem_of_nil]%elem_of_cons.
Defined.
